(** * Review loader: streaming ingestion and quota sampling

    A shallow embedding of [load_review.py]: the chunked reading of a
    decompressed category file, the reassembly of text lines, the
    timestamp filter, the priority/other quota policy, the user ledger
    carried from one category to the next and the batch persistence
    with its resumability check.

    Conventions.
    - Raw data read from the decompressor is a [list byte].
    - A Python [str] is held as the list of its UTF-8 code units
      ([text]); two strings are equal exactly when their encodings are.
    - Counters ([rows_read], [lines_processed], [len(...)]) are in [Z].
    - A data frame is held as the list of the dictionaries it was made
      from; what pandas makes of their values shows where the frame is
      read back, in [save_category_data].
    - [json.loads], the HTTP transport, pandas and the PostgreSQL driver
      are collaborators: they are parameters of the sections below.
      The driver may raise in [execute], [executemany] and [commit];
      [rollback] and [close] are taken not to.
    - JSON numbers that the loop compares or counts are integers, and
      user identifiers are strings or absent, as in the data set.
    - [print] calls and the Parquet export of [main] are not modelled. *)

From Stdlib Require Import ZArith NArith Lia.
From Stdlib Require Import Strings.Byte Strings.Ascii Strings.String.
From stdpp Require Import base option list strings gmap sets.

Local Open Scope Z_scope.

(** ** Outcomes of fallible code *)

(** The exceptions that can leave [parse_review_files]. *)
Inductive exn : Type :=
| LineError        (* AttributeError / TypeError raised while handling a parsed line *)
| TransportError   (* requests / gzip failure: raise_for_status, a broken stream *)
| DatabaseError.   (* psycopg2.Error *)

Inductive result (A : Type) : Type :=
| Ok (a : A)
| Raise (e : exn).
Arguments Ok {A} a.
Arguments Raise {A} e.

#[global] Instance result_ret : MRet result := fun A a => Ok a.
#[global] Instance result_bind : MBind result := fun A B f m =>
  match m with
  | Ok a => f a
  | Raise e => Raise e
  end.
#[global] Instance result_fmap : FMap result := fun A B f m =>
  match m with
  | Ok a => Ok (f a)
  | Raise e => Raise e
  end.

(** ** Bytes and text *)

Abbreviation bytes := (list byte).
Abbreviation text := (list byte).

Definition newline : byte := x0a.

Definition between (lo hi : N) (b : byte) : bool :=
  ((lo <=? Byte.to_N b) && (Byte.to_N b <=? hi))%N.

(** *** [bytes.decode('utf-8', errors='ignore')]

    The decoder keeps every well-formed UTF-8 sequence and drops every
    byte that is not part of one.  It is written as the usual automaton:
    [pending] holds the bytes of a sequence that is well formed so far
    but not complete.  A byte that cannot extend [pending] causes the
    pending bytes to be dropped and is then looked at afresh; what is
    pending when the input ends is dropped as well. *)

(** Number of bytes of the sequence announced by a first byte; [0] for a
    byte that cannot start a sequence (continuation bytes, C0, C1,
    F5..FF). *)
Definition seq_length (b0 : byte) : nat :=
  if between 0x00 0x7F b0 then 1%nat
  else if between 0xC2 0xDF b0 then 2%nat
  else if between 0xE0 0xEF b0 then 3%nat
  else if between 0xF0 0xF4 b0 then 4%nat
  else 0%nat.

(** May [b] be the next byte after [pending]?  The second byte of a
    sequence is restricted by the first one (no overlong forms, no
    surrogates, nothing above U+10FFFF). *)
Definition continues (pending : list byte) (b : byte) : bool :=
  match pending with
  | [] => false
  | [b0] =>
      if between 0xC2 0xDF b0 then between 0x80 0xBF b
      else if between 0xE0 0xE0 b0 then between 0xA0 0xBF b
      else if between 0xE1 0xEC b0 then between 0x80 0xBF b
      else if between 0xED 0xED b0 then between 0x80 0x9F b
      else if between 0xEE 0xEF b0 then between 0x80 0xBF b
      else if between 0xF0 0xF0 b0 then between 0x90 0xBF b
      else if between 0xF1 0xF3 b0 then between 0x80 0xBF b
      else if between 0xF4 0xF4 b0 then between 0x80 0x8F b
      else false
  | _ => between 0x80 0xBF b
  end.

(** A byte looked at with nothing pending: emitted, kept as the start of
    a longer sequence, or dropped. *)
Definition utf8_start (b : byte) : text * list byte :=
  match seq_length b with
  | O => ([], [])
  | S O => ([b], [])
  | _ => ([], [b])
  end.

(** One step of the decoder: the text emitted and the new pending bytes. *)
Definition utf8_step (pending : list byte) (b : byte) : text * list byte :=
  if continues pending b then
    let p := pending ++ [b] in
    if (length p =? seq_length (List.hd b p))%nat then (p, []) else ([], p)
  else utf8_start b.

Fixpoint decode_from (pending : list byte) (data : bytes) : text :=
  match data with
  | [] => []
  | b :: rest =>
      let '(out, p) := utf8_step pending b in
      out ++ decode_from p rest
  end.

(** [chunk.decode('utf-8', errors='ignore')]: every chunk is decoded on
    its own, starting with nothing pending. *)
Definition decode_ignore (chunk : bytes) : text := decode_from [] chunk.

(** *** Lines *)

(** ['\n' in buffer] *)
Definition has_newline (buffer : text) : bool :=
  existsb (Byte.eqb newline) buffer.

(** [buffer.split('\n', 1)] for a buffer that holds a newline: the text
    before the first newline and the text after it.  (Without a newline
    Python returns a one-element list; the loop never splits then.) *)
Fixpoint split_first_newline (buffer : text) : text * text :=
  match buffer with
  | [] => ([], [])
  | c :: rest =>
      if Byte.eqb newline c then ([], rest)
      else let '(line, rest') := split_first_newline rest in (c :: line, rest')
  end.

(** [str.strip()] removes the characters for which [str.isspace] holds.
    [blank] tells whether a text consists of such characters only, so
    [line.strip()] is truthy exactly when [blank line = false].  The
    characters are: U+0009..U+000D, U+001C..U+0020, U+0085, U+00A0,
    U+1680, U+2000..U+200A, U+2028, U+2029, U+202F, U+205F, U+3000. *)
Fixpoint blank (s : text) : bool :=
  match s with
  | [] => true
  | c :: r =>
      if between 0x09 0x0D c || between 0x1C 0x20 c then blank r
      else match r with
      | c1 :: r1 =>
          if between 0xC2 0xC2 c && (between 0x85 0x85 c1 || between 0xA0 0xA0 c1)
          then blank r1
          else match r1 with
          | c2 :: r2 =>
              if (between 0xE1 0xE1 c && between 0x9A 0x9A c1 && between 0x80 0x80 c2)
                 || (between 0xE2 0xE2 c && between 0x80 0x80 c1
                     && (between 0x80 0x8A c2 || between 0xA8 0xA9 c2
                         || between 0xAF 0xAF c2))
                 || (between 0xE2 0xE2 c && between 0x81 0x81 c1 && between 0x9F 0x9F c2)
                 || (between 0xE3 0xE3 c && between 0x80 0x80 c1 && between 0x80 0x80 c2)
              then blank r2
              else false
          | [] => false
          end
      | [] => false
      end
  end.

(** ** Records *)

(** A user identifier as the loader sees it: the string under
    ["user_id"], or [None] when the key is absent or null. *)
Abbreviation user := (option string).

(** What the loop reads from a parsed JSON object with [review.get].
    [None] stands for a key that is absent (or null for the fields that
    are only passed on); the other fields carry the value as text.
    [review.get("helpful_vote", 0)] tells an absent key from null:
    [None] is the absent key there, [Some None] is null. *)
Record review : Type := {
  get_timestamp : option Z;
  get_user_id : user;
  get_parent_asin : option string;
  get_asin : option string;
  get_rating : option string;
  get_title : option string;
  get_text : option string;
  get_images : option string;
  get_verified_purchase : option string;
  get_helpful_vote : option (option string);
}.

(** Outcome of [json.loads(line)] followed by the field reads and the
    comparison [ts >= start_date]:
    - [JSONDecodeError]: the line is not JSON; the [except] clause skips it;
    - [Unreadable]: the line is JSON but the reads fail -- the value is
      not an object ([.get] raises AttributeError) or its timestamp
      cannot be compared with a number (TypeError); these exceptions are
      not caught by the loop;
    - [Loaded r]: an object whose timestamp is an integer or absent and
      whose user identifier is a string, null or absent (the values the
      data set holds; other numbers and other identifiers are outside
      this model). *)
Inductive loads_result : Type :=
| JSONDecodeError
| Unreadable
| Loaded (r : review).

(** The dictionary [review_data] built for an accepted line. *)
Record review_data : Type := {
  user_id : user;
  parent_asin : option string;
  asin : option string;
  rating : option string;
  title : option string;
  text_ : option string;
  images : option string;
  timestamp : Z;
  verified_purchase : option string;
  helpful_votes : option string;
  filename : string;
}.

(** The local variables of one category's scan. *)
Record scan_state : Type := {
  priority_data : list review_data;
  other_data : list review_data;
  file_users : gset user;
  rows_read : Z;
  lines_processed : Z;
}.

Definition len {A} (l : list A) : Z := Z.of_nat (length l).

(** ** The scan of one category *)

Section Scan.

(** [json.loads] with the reads made on its result. *)
Variable json_loads : text -> loads_result.
(** [start_date]: midnight of 2020-01-01 in local time, in
    milliseconds; an integer-valued float. *)
Variable start_date : Z.
(** [MAX_REVIEWS] and [MAX_ROWS_TO_READ]. *)
Variable max_reviews : Z.
Variable max_rows_to_read : Z.

(** The ledger as it is when the category starts, and the category's
    name; neither is assigned during the scan. *)
Variable global_users : list user.
Variable fname : string.

Definition initial_scan_state : scan_state :=
  {| priority_data := []; other_data := []; file_users := ∅;
     rows_read := 0; lines_processed := 0 |}.

(** Lines 182-194. *)
Definition make_review_data (r : review) (ts : Z) : review_data :=
  {| user_id := get_user_id r;
     parent_asin := get_parent_asin r;
     asin := get_asin r;
     rating := get_rating r;
     title := get_title r;
     text_ := get_text r;
     images := get_images r;
     timestamp := ts;
     verified_purchase := get_verified_purchase r;
     helpful_votes := default (Some "0"%string) (get_helpful_vote r);
     filename := fname |}.

(** Lines 172-206: what is done with one line split off the buffer. *)
Definition handle_line (line : text) (st : scan_state) : result scan_state :=
  if blank line then Ok st
  else
    let st := {| priority_data := priority_data st; other_data := other_data st;
                 file_users := file_users st; rows_read := rows_read st;
                 lines_processed := lines_processed st + 1 |} in
    match json_loads line with
    | JSONDecodeError => Ok st
    | Unreadable => Raise LineError
    | Loaded r =>
        let ts := default 0 (get_timestamp r) in
        let uid := get_user_id r in
        if start_date <=? ts then
          let rd := make_review_data r ts in
          if bool_decide (uid ∈ global_users) then
            Ok {| priority_data := priority_data st ++ [rd];
                  other_data := other_data st;
                  file_users := {[uid]} ∪ file_users st;
                  rows_read := rows_read st + 1;
                  lines_processed := lines_processed st |}
          else
            Ok {| priority_data := priority_data st;
                  other_data := other_data st ++ [rd];
                  file_users := file_users st;
                  rows_read := rows_read st + 1;
                  lines_processed := lines_processed st |}
        else Ok st
    end.

(** Lines 169-170: [while '\n' in buffer and rows_read < MAX_ROWS_TO_READ].
    Every turn removes at least the newline from the buffer, so
    [length buffer] turns always suffice ([while_lines_fuel] below);
    the loop returns the state and what is left in the buffer. *)
Fixpoint while_lines (fuel : nat) (st : scan_state) (buffer : text)
  : result (scan_state * text) :=
  if has_newline buffer && (rows_read st <? max_rows_to_read) then
    match fuel with
    | O => Ok (st, buffer)
    | S fuel' =>
        let '(line, buffer') := split_first_newline buffer in
        st' ← handle_line line st;
        while_lines fuel' st' buffer'
    end
  else Ok (st, buffer).

(** Lines 163-170: [for chunk in iter(lambda: decompressor.read(8192), b'')].
    [chunks] are the successive results of [read]; the empty chunk is
    the sentinel that ends the iteration. *)
Fixpoint for_chunks (chunks : list bytes) (st : scan_state) (buffer : text)
  : result (scan_state * text) :=
  match chunks with
  | [] => Ok (st, buffer)
  | chunk :: rest =>
      if bool_decide (chunk = []) then Ok (st, buffer)
      else if max_rows_to_read <=? rows_read st then Ok (st, buffer)
      else
        let buffer := buffer ++ decode_ignore chunk in
        '(st', buffer') ← while_lines (length buffer) st buffer;
        for_chunks rest st' buffer'
  end.

(** Lines 213-222: the kept set and the users of the kept records. *)
Fixpoint fill_from_other (final_data : list review_data) (users : gset user)
    (others : list review_data) : list review_data * gset user :=
  match others with
  | [] => (final_data, users)
  | rd :: rest =>
      if max_reviews <=? len final_data then (final_data, users)
      else fill_from_other (final_data ++ [rd]) ({[user_id rd]} ∪ users) rest
  end.

Definition finalize (st : scan_state) : list review_data * gset user :=
  let final_data := priority_data st in
  let remaining_slots := max_reviews - len final_data in
  if 0 <? remaining_slots
  then fill_from_other final_data (file_users st) (other_data st)
  else (final_data, file_users st).

(** Line 224. [file_users] is a Python set: the order in which it is
    traversed is not fixed by the language; [elements] is one order. *)
Definition extend_global_users (users : gset user) : list user :=
  global_users ++ filter (λ u, u ∉ global_users) (elements users).

End Scan.

(** ** The store and the run *)

(** A row of the table [review_data], as the queries give it back: it
    has the columns of the tuple built in [save_category_data], which
    are the fields of the dictionary, three of them under another
    name. *)
Abbreviation row := review_data.

(** The relational store as one connection sees it: the rows that are
    committed and the rows written by the open transaction. *)
Record database : Type := {
  committed : list row;
  pending : list row;
}.

(** What the run does to its collaborators, in order. *)
Inductive event : Type :=
| SelectUsers
| SelectFilenames
| Get (url : string)
| Executemany (rows : list row)
| Commit
| Rollback.

Record world : Type := {
  db : database;
  trace : list event;
}.

(** Computations of the run: they may raise, and they act on the world
    whether they raise or not. *)
Definition M (A : Type) : Type := world -> result A * world.

#[global] Instance M_ret : MRet M := fun A a w => (Ok a, w).
#[global] Instance M_bind : MBind M := fun A B f m w =>
  match m w with
  | (Ok a, w') => f a w'
  | (Raise e, w') => (Raise e, w')
  end.

Definition lift {A} (r : result A) : M A := fun w => (r, w).

Definition emit (e : event) : M unit := fun w =>
  (Ok tt, {| db := db w; trace := trace w ++ [e] |}).

Definition set_db (d : database) : M unit := fun w =>
  (Ok tt, {| db := d; trace := trace w |}).

Definition get_db : M database := fun w => (Ok (db w), w).

(** [try: body except psycopg2.Error: handler] *)
Definition try_except_db {A} (body : M A) (handler : M A) : M A := fun w =>
  match body w with
  | (Raise DatabaseError, w') => handler w'
  | other => other
  end.

(** The local variables of [parse_review_files] that live across the
    iterations of its loop. *)
Record locals : Type := {
  all_dfs : list (list review_data);
  user_product_dict : gmap string (gset (option string));
  global_users : list user;
}.

(** [file_url.split("/")[-1]]: the text after the last slash. *)
Fixpoint last_segment (cur : string) (s : string) : string :=
  match s with
  | EmptyString => cur
  | String c r =>
      if Ascii.eqb c "/" then last_segment EmptyString r
      else last_segment (cur +:+ String c EmptyString) r
  end.

(** [.replace(".gz", "")] *)
Fixpoint remove_gz (s : string) : string :=
  match s with
  | EmptyString => EmptyString
  | String c r =>
      match c, r with
      | "."%char, String "g" (String "z" r') => remove_gz r'
      | _, _ => String c (remove_gz r)
      end
  end.

(** Line 139. *)
Definition filename_of (file_url : string) : string :=
  remove_gz (last_segment EmptyString file_url).

(** [decompressor.read(size)]: at most [size] bytes, fewer only at the
    end of the data, none when the data is used up. *)
Definition read (size : nat) (data : bytes) : bytes * bytes :=
  (take size data, drop size data).

(** The results of the successive calls [decompressor.read(8192)] up to
    and including the empty one.  [S (length data)] calls always reach
    the empty result ([reads_all_last] below). *)
Fixpoint reads (fuel : nat) (size : nat) (data : bytes) : list bytes :=
  match fuel with
  | O => []
  | S fuel' =>
      let '(chunk, data') := read size data in
      if bool_decide (chunk = []) then [chunk]
      else chunk :: reads fuel' size data'
  end.

Definition READ_SIZE : nat := Z.to_nat 8192.
Arguments READ_SIZE : simpl never.

Definition reads_all (data : bytes) : list bytes :=
  reads (S (length data)) READ_SIZE data.
Arguments reads_all : simpl never.

Section Run.

Variable json_loads : text -> loads_result.
Variable start_date : Z.
Variable max_reviews : Z.
Variable max_rows_to_read : Z.

(** [requests.get(file_url, stream=True)] read through
    [gzip.GzipFile]: the decompressed bytes of the file, or [None]
    when the request, [raise_for_status] or a read made by the loop
    raises. *)
Variable fetch : string -> option bytes.
(** Whether a [SELECT] on [review_data] raises [psycopg2.Error]. *)
Variable select_raises : bool.
(** Whether [executemany] raises [psycopg2.Error] on a batch, and
    after how many of its rows. *)
Variable insert_fault : list row -> option nat.
(** Whether [commit] raises [psycopg2.Error] when these rows are
    pending. *)
Variable commit_fault : list row -> bool.
(** Line 230 and lines 86-121, with the driver's adaptation of the
    values: the kept records are made into a frame, the frame is read
    back row by row and a tuple is built from each row.  What
    [row[...]] returns for a value that went into the frame, and what
    the table then holds, is decided by pandas, [json.dumps], [str] and
    the driver (a missing value may come back as NaN, an integer as a
    float, the images as JSON text): [frame_values df rd] is what the
    table is given for the record [rd] of the frame made from [df]. *)
Variable frame_values : list review_data -> review_data -> row.

Definition visible (d : database) : list row := committed d ++ pending d.

(** Lines 67-73. *)
Definition get_existing_users : M (list user) :=
  emit SelectUsers;;
  if select_raises then mret []
  else d ← get_db; mret (remove_dups (map user_id (visible d))).

(** Lines 76-82. *)
Definition get_completed_categories : M (list string) :=
  emit SelectFilenames;;
  if select_raises then mret []
  else d ← get_db; mret (remove_dups (map filename (visible d))).

Definition executemany (rows : list row) : M unit :=
  emit (Executemany rows);;
  d ← get_db;
  match insert_fault rows with
  | None => set_db {| committed := committed d; pending := pending d ++ rows |}
  | Some k =>
      set_db {| committed := committed d; pending := pending d ++ take k rows |};;
      lift (Raise DatabaseError)
  end.

Definition commit : M unit :=
  emit Commit;;
  d ← get_db;
  if commit_fault (pending d) then lift (Raise DatabaseError)
  else set_db {| committed := committed d ++ pending d; pending := [] |}.

Definition rollback : M unit :=
  emit Rollback;;
  d ← get_db;
  set_db {| committed := committed d; pending := [] |}.

(** Lines 86-121: one tuple for every row of the frame.  The name of
    the category is a string in every record, and [row['filename']]
    gives it back as it is; the other columns are what the frame and
    the driver make of the values. *)
Definition data_tuples (df : list review_data) : list row :=
  map (λ rd,
         let t := frame_values df rd in
         {| user_id := user_id t; parent_asin := parent_asin t; asin := asin t;
            rating := rating t; title := title t; text_ := text_ t;
            images := images t; timestamp := timestamp t;
            verified_purchase := verified_purchase t;
            helpful_votes := helpful_votes t; filename := filename rd |}) df.

(** Lines 85-129. *)
Definition save_category_data (df : list review_data) : M unit :=
  try_except_db (executemany (data_tuples df);; commit) rollback.

(** Lines 148-149 and 159. *)
Definition requests_get (file_url : string) : M bytes :=
  emit (Get file_url);;
  match fetch file_url with
  | Some data => mret data
  | None => lift (Raise TransportError)
  end.

(** Lines 151-211: the scan of the category's file. *)
Definition scan_category (ledger : list user) (fname : string) (data : bytes)
  : result scan_state :=
  '(st, _) ← for_chunks json_loads start_date max_rows_to_read ledger fname
               (reads_all data) initial_scan_state [];
  mret st.

(** Lines 151-222: the scan followed by the choice of the kept set;
    [final_data] and [file_users]. *)
Definition sample_category (ledger : list user) (fname : string) (data : bytes)
  : result (list review_data * gset user) :=
  st ← scan_category ledger fname data;
  mret (finalize max_reviews st).

(** Lines 145-241: one category that is not skipped. *)
Definition process_category (file_url fname : string) (loc : locals) : M locals :=
  data ← requests_get file_url;
  '(final_data, users) ← lift (sample_category (global_users loc) fname data);
  let ledger := extend_global_users (global_users loc) users in
  let products : gset (option string) := list_to_set (map parent_asin final_data) in
  let df := final_data in
  (if bool_decide (df = []) then mret tt else save_category_data df);;
  mret {| all_dfs := all_dfs loc ++ [df];
          user_product_dict := <[fname := products]> (user_product_dict loc);
          global_users := ledger |}.

(** Lines 138-241. *)
Fixpoint for_review_files (review_files : list string)
    (completed_filenames : list string) (loc : locals) : M locals :=
  match review_files with
  | [] => mret loc
  | file_url :: rest =>
      let fname := filename_of file_url in
      if bool_decide (fname ∈ completed_filenames)
      then for_review_files rest completed_filenames loc
      else
        loc' ← process_category file_url fname loc;
        for_review_files rest completed_filenames loc'
  end.

(** Lines 132-246.  The result also carries the final locals, so that
    the ledger at the end of the run can be spoken of. *)
Definition parse_review_files (review_files : list string)
  : M (list review_data * gmap string (gset (option string)) * locals) :=
  ledger ← get_existing_users;
  completed_filenames ← get_completed_categories;
  loc ← for_review_files review_files completed_filenames
          {| all_dfs := []; user_product_dict := ∅; global_users := ledger |};
  mret (concat (all_dfs loc), user_product_dict loc, loc).

(** Lines 263-295 of [main], for a connection that was opened on a
    store holding [store] and a list of review files already
    filtered: the call of [parse_review_files] and the closing of the
    connection, which gives up whatever is not committed.  The
    outcome, the store left behind and the trace. *)
Definition main (review_files : list string) (store : list row)
  : result (list review_data) * list row * list event :=
  let w0 := {| db := {| committed := store; pending := [] |}; trace := [] |} in
  if bool_decide (review_files = []) then (Ok [], store, [])
  else
    let '(r, w) := parse_review_files review_files w0 in
    ((λ x, x.1.1) <$> r, committed (db w), trace w).

End Run.

(** ** The constants of the module *)

Definition MAX_REVIEWS : Z := 50000.
Definition MAX_ROWS_TO_READ : Z := 300000.
(** [datetime.datetime(2020, 1, 1).timestamp() * 1000] on a machine
    whose local time is UTC. *)
Definition start_date_utc : Z := 1577836800000.

(** ** Lines and candidates: the vocabulary of the statements *)

(** The lines of a text that are closed by a newline, in order, and
    what follows the last newline. *)
Fixpoint split_lines (t : text) : list text * text :=
  match t with
  | [] => ([], [])
  | c :: r =>
      let '(ls, tl) := split_lines r in
      if Byte.eqb newline c then ([] :: ls, tl)
      else match ls with
           | [] => ([], c :: tl)
           | l :: ls' => ((c :: l) :: ls', tl)
           end
  end.

Definition complete_lines (t : text) : list text := (split_lines t).1.

Definition remainder (t : text) : text := (split_lines t).2.

(** The text the loop has appended to its buffer once all the chunks
    are read: each chunk decoded on its own, up to the empty chunk. *)
Fixpoint decoded_text (chunks : list bytes) : text :=
  match chunks with
  | [] => []
  | chunk :: rest =>
      if bool_decide (chunk = []) then []
      else decode_ignore chunk ++ decoded_text rest
  end.

(** The lines that the two nested loops split off the buffer when they
    are left to run to the end of the chunks. *)
Fixpoint reassemble (chunks : list bytes) (buffer : text) : list text :=
  match chunks with
  | [] => []
  | chunk :: rest =>
      if bool_decide (chunk = []) then []
      else
        let buffer := buffer ++ decode_ignore chunk in
        complete_lines buffer ++ reassemble rest (remainder buffer)
  end.

(** The lines of a category's file as the loop sees them. *)
Definition category_lines (data : bytes) : list text :=
  reassemble (reads_all data) [].

Section Candidates.

Variable json_loads : text -> loads_result.
Variable start_date : Z.
Variable max_rows_to_read : Z.
Variable ledger : list user.
Variable fname : string.

(** The record a line gives rise to, if it is accepted. *)
Definition candidate (line : text) : option review_data :=
  if blank line then None
  else match json_loads line with
       | Loaded r =>
           let ts := default 0 (get_timestamp r) in
           if start_date <=? ts then Some (make_review_data fname r ts) else None
       | _ => None
       end.

(** A line that the loop counts in [lines_processed]. *)
Definition counted (line : text) : bool := negb (blank line).

(** The consumer of the lines: each line is handled while the row
    budget is not used up. *)
Fixpoint scan_lines (lines : list text) (st : scan_state) : result scan_state :=
  match lines with
  | [] => Ok st
  | line :: rest =>
      if rows_read st <? max_rows_to_read then
        st' ← handle_line json_loads start_date ledger fname line st;
        scan_lines rest st'
      else Ok st
  end.

(** A record of a user who is in the ledger. *)
Definition known (rd : review_data) : Prop := user_id rd ∈ ledger.

#[global] Instance known_dec rd : Decision (known rd).
Proof. unfold known. apply _. Defined.

(** A line whose handling raises. *)
Definition raising (line : text) : bool :=
  negb (blank line)
  && match json_loads line with Unreadable => true | _ => false end.

(** The lines that are handled when [budget] more records may be
    accepted: the scan goes on until that many lines were accepted or
    no line is left. *)
Fixpoint consumed (lines : list text) (budget : nat) : list text :=
  match lines with
  | [] => []
  | line :: rest =>
      match budget with
      | O => []
      | S b => line :: consumed rest (if candidate line is Some _ then b else S b)
      end
  end.

(** The state after the lines [ls] were handled. *)
Definition advance (st : scan_state) (ls : list text) : scan_state :=
  let cands := omap candidate ls in
  {| priority_data := priority_data st ++ filter known cands;
     other_data := other_data st ++ filter (λ rd, ¬ known rd) cands;
     file_users := file_users st ∪ list_to_set (user_id <$> filter known cands);
     rows_read := rows_read st + len cands;
     lines_processed := lines_processed st + len (filter (λ l, counted l = true) ls) |}.

(** How many more records the scan may accept in state [st]. *)
Definition budget_left (st : scan_state) : nat :=
  Z.to_nat (max_rows_to_read - rows_read st).

(** The records accepted from a category's file, in the order of the
    file: its first [max_rows_to_read] candidates. *)
Definition accepted (data : bytes) : list review_data :=
  take (Z.to_nat max_rows_to_read) (omap candidate (category_lines data)).

End Candidates.

(** ** A small reader of flat JSON objects, for the examples

    [flat_json_loads] reads objects written without white space whose
    members are strings without escapes or integers, and whose
    [user_id], when present, is a string, as in
    [{"user_id":"U1","timestamp":1700000000000}].  On such lines, and on
    lines that do not begin with a brace, bracket, quote, digit, minus
    sign or one of the words [true], [false], [null], it returns what
    [json.loads] and the reads of the loop return; it is used for
    examples only, never in a general statement. *)

Inductive flat_value : Type :=
| FStr (s : string)
| FInt (z : Z).

Definition quote : byte := x22.

Fixpoint read_string (s : bytes) : option (bytes * bytes) :=
  match s with
  | [] => None
  | c :: r =>
      if Byte.eqb c quote then Some ([], r)
      else if Byte.eqb c x5c || between 0x00 0x1F c then None
      else match read_string r with
           | Some (body, r') => Some (c :: body, r')
           | None => None
           end
  end.

Fixpoint read_digits (acc : Z) (s : bytes) : Z * bytes :=
  match s with
  | c :: r =>
      if between 0x30 0x39 c
      then read_digits (10 * acc + (Z.of_N (Byte.to_N c) - 48)) r
      else (acc, s)
  | [] => (acc, [])
  end.

Definition starts_with_digit (s : bytes) : bool :=
  match s with
  | c :: _ => between 0x30 0x39 c
  | [] => false
  end.

Definition read_value (s : bytes) : option (flat_value * bytes) :=
  match s with
  | c :: r =>
      if Byte.eqb c quote then
        match read_string r with
        | Some (body, r') => Some (FStr (string_of_list_byte body), r')
        | None => None
        end
      else if Byte.eqb c x2d then
        if starts_with_digit r
        then let '(z, r') := read_digits 0 r in Some (FInt (- z), r')
        else None
      else if starts_with_digit s
        then let '(z, r') := read_digits 0 s in Some (FInt z, r')
      else None
  | [] => None
  end.

Definition read_member (s : bytes) : option (string * flat_value * bytes) :=
  match s with
  | c :: r =>
      if Byte.eqb c quote then
        match read_string r with
        | Some (key, x3a :: r') =>
            match read_value r' with
            | Some (v, r'') => Some (string_of_list_byte key, v, r'')
            | None => None
            end
        | _ => None
        end
      else None
  | [] => None
  end.

Fixpoint read_members (fuel : nat) (s : bytes) : option (list (string * flat_value)) :=
  match fuel with
  | O => None
  | S fuel' =>
      match read_member s with
      | Some (k, v, [x7d]) => Some [(k, v)]
      | Some (k, v, x2c :: r) =>
          match read_members fuel' r with
          | Some ms => Some ((k, v) :: ms)
          | None => None
          end
      | _ => None
      end
  end.

Definition read_object (line : text) : option (list (string * flat_value)) :=
  match line with
  | [x7b; x7d] => Some []
  | x7b :: r => read_members (length r) r
  | _ => None
  end.

(** [dict.get]: the member written last wins. *)
Fixpoint flat_get (key : string) (ms : list (string * flat_value)) : option flat_value :=
  match ms with
  | [] => None
  | (k, v) :: r =>
      match flat_get key r with
      | Some v' => Some v'
      | None => if String.eqb k key then Some v else None
      end
  end.

Fixpoint digits_of (fuel : nat) (n : N) (acc : string) : string :=
  match fuel with
  | O => acc
  | S fuel' =>
      let acc' := String (Ascii.ascii_of_N (48 + n mod 10)) acc in
      if (n <? 10)%N then acc' else digits_of fuel' (n / 10)%N acc'
  end.

(** The text of a passed-on value: a string as it is, an integer in
    decimal. *)
Definition flat_text (v : flat_value) : string :=
  match v with
  | FStr s => s
  | FInt z =>
      let d := digits_of (S (N.to_nat (N.log2 (Z.to_N (Z.abs z))))) (Z.to_N (Z.abs z))
                 EmptyString in
      if z <? 0 then String "-" d else d
  end.

Definition flat_json_loads (line : text) : loads_result :=
  match read_object line with
  | None => JSONDecodeError
  | Some ms =>
      let field k := flat_text <$> flat_get k ms in
      match flat_get "timestamp" ms, flat_get "user_id" ms with
      | Some (FStr _), _ => Unreadable
      | _, Some (FInt _) => JSONDecodeError
      | ts, uid =>
          Loaded {| get_timestamp := match ts with Some (FInt z) => Some z | _ => None end;
                    get_user_id := match uid with Some (FStr s) => Some s | _ => None end;
                    get_parent_asin := field "parent_asin"%string;
                    get_asin := field "asin"%string;
                    get_rating := field "rating"%string;
                    get_title := field "title"%string;
                    get_text := field "text"%string;
                    get_images := field "images"%string;
                    get_verified_purchase := field "verified_purchase"%string;
                    get_helpful_vote := Some <$> field "helpful_vote"%string |}
      end
  end.

(** Writing the example lines. *)
Definition jstr (s : string) : bytes := quote :: list_byte_of_string s ++ [quote].
Definition jnum (s : string) : bytes := list_byte_of_string s.
Definition member (key : string) (value : bytes) : bytes := jstr key ++ x3a :: value.

Fixpoint members (ms : list bytes) : bytes :=
  match ms with
  | [] => []
  | [m] => m
  | m :: r => m ++ x2c :: members r
  end.

Definition object (ms : list bytes) : bytes := x7b :: members ms ++ [x7d].

(** A review line of user [u] with timestamp [ts] (in decimal). *)
Definition review_line (u ts : string) : bytes :=
  object [member "user_id" (jstr u); member "timestamp" (jnum ts)].

(** A file: its lines, each closed by a newline. *)
Definition file_of (lines : list bytes) : bytes :=
  concat (map (λ l, l ++ [newline]) lines).

(** The pending bytes of the decoder after some data. *)
Fixpoint pending_after (pending : list byte) (data : bytes) : list byte :=
  match data with
  | [] => pending
  | b :: rest => pending_after (utf8_step pending b).2 rest
  end.

(** ** The run: vocabulary *)

(** What the two queries at the start of a run return on a store. *)
Definition existing_users (select_raises : bool) (rows : list row) : list user :=
  if select_raises then [] else remove_dups (user_id <$> rows).

Definition completed_filenames (select_raises : bool) (rows : list row) : list string :=
  if select_raises then [] else remove_dups (filename <$> rows).


(** An event of the processing of a category [fname] that is not
    skipped. *)
Definition event_of (fname : string) (e : event) : Prop :=
  match e with
  | Get url => filename_of url = fname
  | Executemany rows => Forall (λ r, filename r = fname) rows
  | Commit | Rollback => True
  | SelectUsers | SelectFilenames => False
  end.

(** ** Example data *)

Definition recent : string := "1700000000000".
Definition old : string := "1000000000000".

Definition example_url : string := "https://host/review_categories/Cat.jsonl.gz".

(** The three lines of the scenario of the specification: a recent
    review of U1, a line that is not JSON, an old review of U2. *)
Definition scenario_file : bytes :=
  file_of [review_line "U1" recent; list_byte_of_string "not json";
           review_line "U2" old].

(** [n] recent reviews of one user. *)
Definition reviews_of (u : string) (n : nat) : bytes :=
  file_of (replicate n (review_line u recent)).

(** One old review followed by [n] recent ones. *)
Definition old_then_recent (n : nat) : bytes :=
  file_of (review_line "U9" old :: replicate n (review_line "U9" recent)).

(** The record made from [review_line u ts]. *)
Definition example_record (u : string) (ts : Z) (fname : string) : review_data :=
  {| user_id := Some u; parent_asin := None; asin := None; rating := None;
     title := None; text_ := None; images := None; timestamp := ts;
     verified_purchase := None; helpful_votes := Some "0"%string;
     filename := fname |}.

(** The world after a batch of tuples was handed to the driver: the
    batch is committed, or it is rolled back because [executemany] or
    [commit] raised. *)
Definition saved (insert_fault : list row -> option nat)
    (commit_fault : list row -> bool) (tuples : list row) (w : world) : world :=
  match insert_fault tuples with
  | None =>
      if commit_fault (pending (db w) ++ tuples) then
        {| db := {| committed := committed (db w); pending := [] |};
           trace := trace w ++ [Executemany tuples; Commit; Rollback] |}
      else
        {| db := {| committed := committed (db w) ++ pending (db w) ++ tuples;
                    pending := [] |};
           trace := trace w ++ [Executemany tuples; Commit] |}
  | Some _ =>
      {| db := {| committed := committed (db w); pending := [] |};
         trace := trace w ++ [Executemany tuples; Rollback] |}
  end.

(** The locals after a category whose kept set is [kept]. *)
Definition next_locals (fname : string) (loc : locals)
    (kept : list review_data) (users : gset user) : locals :=
  {| all_dfs := all_dfs loc ++ [kept];
     user_product_dict :=
       <[fname := list_to_set (map parent_asin kept)]> (user_product_dict loc);
     global_users := extend_global_users (global_users loc) users |}.

(** The world after the file was requested. *)
Definition downloaded (file_url : string) (w : world) : world :=
  {| db := db w; trace := trace w ++ [Get file_url] |}.

(** A review whose user name ends with a two-byte character that lies
    across the end of the first 8192 bytes of the file: the twelve
    bytes that open the object and the name, 8179 letters, then the
    two bytes of the character.  With [with_char := false], the same
    line without the character. *)
Definition split_char_line (with_char : bool) : bytes :=
  object [member "user_id"
            (quote :: replicate (Z.to_nat 8179) "a"%byte
                   ++ (if with_char then [xc3; xa9] else []) ++ [quote]);
          member "timestamp" (jnum recent)].

Definition split_char_file : bytes := file_of [split_char_line true].

(** Collaborators for the examples: every file has the content [data];
    [executemany] never fails, or fails after [k] rows. *)
Definition fetch_always (data : bytes) : string -> option bytes := λ _, Some data.
Definition no_fault : list row -> option nat := λ _, None.
Definition fault_after (k : nat) : list row -> option nat := λ _, Some k.
(** Every commit succeeds. *)
Definition commits : list row -> bool := λ _, false.
(** A frame and a driver that give every value back as it went in. *)
Definition plain_values : list review_data -> review_data -> row := λ _ rd, rd.

Definition fresh_world (store : list row) : world :=
  {| db := {| committed := store; pending := [] |}; trace := [] |}.

Definition locals_with (ledger : list user) : locals :=
  {| all_dfs := []; user_product_dict := ∅; global_users := ledger |}.

(** A recent review of the new user U2, then one of U1. *)
Definition two_user_file : bytes :=
  file_of [review_line "U2" recent; review_line "U1" recent].

(** Recent reviews of five new users. *)
Definition five_user_file : bytes :=
  file_of (map (λ u, review_line u recent) ["A"; "B"; "C"; "D"; "E"]%string).

(** A file with one old review. *)
Definition old_file : bytes := file_of [review_line "U9" old].

(** ** The catalogue page and the start of [main] *)

Definition BASE_URL : string := "https://amazon-reviews-2023.github.io/".

(** What [get_all_files] sees of the index page: the status code of the
    response and, for every table that [soup.find_all("table")] finds,
    the [href] attributes of the anchors inside it, in the order of the
    document ([None]: an anchor without the attribute). *)
Record response : Type := {
  status_code : Z;
  tables : list (list (option string));
}.

(** The exceptions that nothing in [main] catches. *)
Inductive crash : Type :=
| IndexError   (* tables[1] on a page with fewer than two tables *)
| TypeError.   (* unpacking the None that connect_to_database returns *)

Inductive outcome (A : Type) : Type :=
| Returns (a : A)
| Crashes (c : crash).
Arguments Returns {A} a.
Arguments Crashes {A} c.

(** Lines 58-63: the link made from one anchor. *)
Definition link_of (href : option string) : option string :=
  match href with
  | None => None
  | Some h =>
      if bool_decide (h = EmptyString) then None
      else Some (if String.prefix "http" h then h else BASE_URL +:+ h)
  end.

(** Lines 44-64. *)
Definition get_all_files (page : response) : outcome (list string) :=
  if status_code page =? 200 then
    match tables page !! 1%nat with
    | Some table => Returns (omap link_of table)
    | None => Crashes IndexError
    end
  else Returns [].

(** [str.lower()] for ASCII text, as the links of the catalogue are:
    the letters A to Z are changed, nothing else is. *)
Definition lower_char (c : ascii) : ascii :=
  let n := N_of_ascii c in
  if ((65 <=? n) && (n <=? 90))%N then ascii_of_N (n + 32) else c.

Fixpoint lower (s : string) : string :=
  match s with
  | EmptyString => EmptyString
  | String c r => String (lower_char c) (lower r)
  end.

(** [pat in s] *)
Fixpoint contains (pat s : string) : bool :=
  String.prefix pat s
  || match s with
     | EmptyString => false
     | String _ r => contains pat r
     end.

(** Line 265: ['review_categories' in f.lower()]. *)
Definition is_review_file (f : string) : bool :=
  contains "review_categories" (lower f).

Section Program.

Variable json_loads : text -> loads_result.
Variable start_date : Z.
Variable max_reviews : Z.
Variable max_rows_to_read : Z.
Variable fetch : string -> option bytes.
Variable select_raises : bool.
Variable insert_fault : list row -> option nat.
Variable commit_fault : list row -> bool.
Variable frame_values : list review_data -> review_data -> row.

(** Lines 249-295, the whole of [main]: the catalogue is read, the
    connection is opened ([connection] is the store it gives access to,
    [None] when [psycopg2.connect] raises and [connect_to_database]
    returns nothing), the review files are picked and handed to the
    part of [main] modelled above. *)
Definition main_program (page : response) (connection : option (list row))
  : outcome (result (list review_data) * list row * list event) :=
  match get_all_files page with
  | Crashes c => Crashes c
  | Returns files =>
      match connection with
      | None => Crashes TypeError
      | Some store =>
          let review_files := List.filter is_review_file files in
          Returns (main json_loads start_date max_reviews max_rows_to_read fetch
                     select_raises insert_fault commit_fault frame_values
                       review_files store)
      end
  end.

End Program.

(** An index page: a first table, and a second one with a relative
    link to a review file, an anchor without [href], an absolute link
    to a metadata file and an absolute link to a review file. *)
Definition example_page : response :=
  {| status_code := 200;
     tables := [[Some "index.html"%string];
                [Some "review_categories/Cat.jsonl.gz"%string; None;
                 Some "https://host/meta_categories/meta_Cat.jsonl.gz"%string;
                 Some "https://host/Review_Categories/Toys.jsonl.gz"%string]] |}.

(** ** Further example data *)

#[global] Instance byte_eq_decision : EqDecision byte := Byte.byte_eq_dec.

(** A line that is JSON but whose timestamp is a string: the comparison
    with [start_date] raises TypeError. *)
Definition unreadable_line : bytes :=
  object [member "user_id" (jstr "U1"); member "timestamp" (jstr "soon")].

(** No file can be read. *)
Definition fetch_never : string -> option bytes := λ _, None.


(** A batch of tuples that is written: neither [executemany] nor
    [commit] raises for it. *)
Definition written (insert_fault : list row -> option nat)
    (commit_fault : list row -> bool) (tuples : list row) : Prop :=
  insert_fault tuples = None ∧ commit_fault tuples = false.

#[global] Instance written_dec insert_fault commit_fault tuples :
  Decision (written insert_fault commit_fault tuples).
Proof. unfold written. apply _. Defined.


(** A second review file, and a transport that can only read the
    file at [url]. *)
Definition second_url : string := "https://host/review_categories/Toys.jsonl.gz".

Definition fetch_only (url : string) (data : bytes) : string -> option bytes :=
  λ u, if bool_decide (u = url) then Some data else None.

(** The files requested in a trace, in order. *)
Definition requested (tr : list event) : list string :=
  omap (λ e, match e with Get url => Some url | _ => None end) tr.

(** The dictionary of products agrees with the kept records: under a
    category's name it holds the [parent_asin] values of the kept
    records of that category, and nothing else. *)
Definition dict_ok (loc : locals) : Prop :=
  forall fname products,
    user_product_dict loc !! fname = Some products ->
    forall p, p ∈ products
              <-> exists rd, rd ∈ concat (all_dfs loc)
                             ∧ filename rd = fname ∧ parent_asin rd = p.

(** An index page whose only link is to a metadata file. *)
Definition meta_only_page : response :=
  {| status_code := 200;
     tables := [[]; [Some "https://host/meta_categories/meta_Cat.jsonl.gz"%string]] |}.

(** Data made of ASCII bytes only. *)
Definition ascii_only (data : bytes) : Prop :=
  Forall (λ b, between 0x00 0x7F b = true) data.

(** * Properties *)

(** ** The decoder *)

Lemma continues_newline pending : continues pending newline = false.
Proof.
  destruct pending as [|b0 [|b1 p]]; simpl; try reflexivity.
  repeat (case_match; try reflexivity).
Qed.

Lemma utf8_step_newline pending : utf8_step pending newline = ([newline], []).
Proof. unfold utf8_step. rewrite continues_newline. reflexivity. Qed.

Lemma decode_from_app pending a b :
  decode_from pending (a ++ b)
  = decode_from pending a ++ decode_from (pending_after pending a) b.
Proof.
  revert pending. induction a as [|x a IH]; intros pending; simpl; [done|].
  destruct (utf8_step pending x) as [out p]. simpl.
  by rewrite IH, app_assoc.
Qed.

Lemma pending_after_app pending a b :
  pending_after pending (a ++ b) = pending_after (pending_after pending a) b.
Proof. revert pending. induction a as [|x a IH]; intros pending; simpl; auto. Qed.

Lemma pending_after_newline pending a :
  pending_after pending (a ++ [newline]) = [].
Proof.
  rewrite pending_after_app. simpl. by rewrite utf8_step_newline.
Qed.

(** A newline in the data cuts the decoding in two: what comes before
    and what comes after are decoded independently. *)
Lemma decode_from_newline pending a b :
  decode_from pending (a ++ newline :: b)
  = decode_from pending a ++ newline :: decode_from [] b.
Proof.
  rewrite decode_from_app. simpl. by rewrite utf8_step_newline.
Qed.

Lemma utf8_step_elem pending b out p :
  utf8_step pending b = (out, p) ->
  (forall x, x ∈ out -> x ∈ pending ∨ x = b) ∧ (forall x, x ∈ p -> x ∈ pending ∨ x = b).
Proof.
  unfold utf8_step, utf8_start. intros H.
  repeat case_match; simplify_eq; split; intros x Hx;
    try (apply elem_of_app in Hx as [?|Hx]; [by left|]);
    try (apply list_elem_of_singleton in Hx; by right);
    try (by apply not_elem_of_nil in Hx).
Qed.

(** The decoder only emits bytes that it was given. *)
Lemma decode_from_elem data : forall pending x,
  x ∈ decode_from pending data -> x ∈ pending ∨ x ∈ data.
Proof.
  induction data as [|b data IH]; intros pending x; simpl.
  - intros H. by apply not_elem_of_nil in H.
  - destruct (utf8_step pending b) as [out p] eqn:E.
    destruct (utf8_step_elem _ _ _ _ E) as [Ho Hp].
    intros [H|H]%elem_of_app.
    + destruct (Ho _ H) as [? | ->]; [by left|right; left].
    + destruct (IH _ _ H) as [H'|H']; [|right; by right].
      destruct (Hp _ H') as [? | ->]; [by left|right; left].
Qed.

Lemma decode_ignore_elem chunk x : x ∈ decode_ignore chunk -> x ∈ chunk.
Proof.
  intros H. destruct (decode_from_elem _ _ _ H) as [H'|H']; [|done].
  by apply not_elem_of_nil in H'.
Qed.


(** Data made of ASCII bytes only is decoded to itself. *)
Lemma decode_ignore_ascii data : ascii_only data -> decode_ignore data = data.
Proof.
  unfold decode_ignore. induction 1 as [|b data Hb _ IH]; simpl; [done|].
  unfold utf8_step, utf8_start, seq_length. simpl. rewrite Hb. simpl. by rewrite IH.
Qed.

(** ** Lines *)

Lemma byte_eqb_refl (x : byte) : Byte.eqb x x = true.
Proof. by apply Byte.byte_dec_lb. Qed.

Lemma has_newline_app a b : has_newline (a ++ b) = has_newline a || has_newline b.
Proof. apply existsb_app. Qed.

Lemma has_newline_false t : has_newline t = false <-> newline ∉ t.
Proof.
  unfold has_newline. induction t as [|c t IH]; simpl.
  - split; [intros _; apply not_elem_of_nil|done].
  - rewrite orb_false_iff, IH, not_elem_of_cons.
    destruct (Byte.eqb newline c) eqn:E.
    + apply Byte.byte_dec_bl in E. split; [by intros [? _]|by intros [? _]].
    + split; [intros [_ ?]; split; [|done]|by intros [_ ?]].
      intros Hc. rewrite <- Hc in E. by rewrite byte_eqb_refl in E.
Qed.

Lemma has_newline_cons c t :
  has_newline (c :: t) = Byte.eqb newline c || has_newline t.
Proof. done. Qed.

Lemma split_lines_cons c t :
  split_lines (c :: t)
  = if Byte.eqb newline c then ([] :: complete_lines t, remainder t)
    else match complete_lines t with
         | [] => ([], c :: remainder t)
         | l :: ls => ((c :: l) :: ls, remainder t)
         end.
Proof.
  unfold complete_lines, remainder. simpl.
  destruct (split_lines t) as [ls tl]. simpl.
  destruct (Byte.eqb newline c); [done|]. by destruct ls.
Qed.

(** A text without a newline has no complete line. *)
Lemma split_lines_no_newline t : has_newline t = false -> split_lines t = ([], t).
Proof.
  induction t as [|c t IH]; [done|].
  rewrite has_newline_cons. intros [E H]%orb_false_iff.
  rewrite split_lines_cons, E. unfold complete_lines, remainder.
  by rewrite IH.
Qed.

Lemma complete_lines_no_newline t : has_newline t = false -> complete_lines t = [].
Proof. intros H. unfold complete_lines. by rewrite split_lines_no_newline. Qed.

Lemma remainder_no_newline t : has_newline (remainder t) = false.
Proof.
  induction t as [|c t IH]; [done|].
  unfold remainder. rewrite split_lines_cons.
  destruct (Byte.eqb newline c) eqn:E; [done|].
  destruct (complete_lines t); cbn [snd]; [|done].
  by rewrite has_newline_cons, E, IH.
Qed.

(** The lines of a text followed by another: those of the first, then
    those of what the first left open followed by the second. *)
Lemma split_lines_eta t : (complete_lines t, remainder t) = split_lines t.
Proof. unfold complete_lines, remainder. by destruct (split_lines t). Qed.

Lemma complete_lines_step c t :
  complete_lines (c :: t)
  = if Byte.eqb newline c then [] :: complete_lines t
    else match complete_lines t with
         | [] => []
         | l :: ls => (c :: l) :: ls
         end.
Proof.
  unfold complete_lines at 1. rewrite split_lines_cons.
  destruct (Byte.eqb newline c); [done|]. by destruct (complete_lines t).
Qed.

Lemma remainder_step c t :
  remainder (c :: t)
  = if Byte.eqb newline c then remainder t
    else match complete_lines t with
         | [] => c :: remainder t
         | _ :: _ => remainder t
         end.
Proof.
  unfold remainder at 1. rewrite split_lines_cons.
  destruct (Byte.eqb newline c); [done|]. by destruct (complete_lines t).
Qed.

Lemma split_lines_app a b :
  split_lines (a ++ b)
  = (complete_lines a ++ complete_lines (remainder a ++ b),
     remainder (remainder a ++ b)).
Proof.
  induction a as [|c a IH]; simpl app.
  - by rewrite <- split_lines_eta.
  - assert (complete_lines (a ++ b)
            = complete_lines a ++ complete_lines (remainder a ++ b)) as HA
      by (unfold complete_lines at 1; by rewrite IH).
    assert (remainder (a ++ b) = remainder (remainder a ++ b)) as HB
      by (unfold remainder at 1; by rewrite IH).
    rewrite split_lines_cons, HA, HB, complete_lines_step, remainder_step.
    destruct (Byte.eqb newline c) eqn:E; [done|].
    destruct (complete_lines a) as [|l ls]; simpl; [|done].
    rewrite complete_lines_step, remainder_step, E.
    by destruct (complete_lines (remainder a ++ b)).
Qed.

Lemma complete_lines_app a b :
  complete_lines (a ++ b) = complete_lines a ++ complete_lines (remainder a ++ b).
Proof. unfold complete_lines at 1. by rewrite split_lines_app. Qed.

(** Splitting at the first newline takes off the first complete line. *)
Lemma split_first_newline_spec t line rest :
  has_newline t = true ->
  split_first_newline t = (line, rest) ->
  t = line ++ newline :: rest ∧ has_newline line = false.
Proof.
  revert line rest. induction t as [|c t IH]; intros line rest; [done|].
  unfold has_newline. simpl.
  destruct (Byte.eqb newline c) eqn:E.
  - intros _ [= <- <-]. apply Byte.byte_dec_bl in E. by subst c.
  - simpl. intros H. destruct (split_first_newline t) as [l r] eqn:Es.
    intros [= <- <-]. destruct (IH l r H eq_refl) as [-> Hl].
    split; [done|]. unfold has_newline in *. simpl. by rewrite E.
Qed.

Lemma complete_lines_cons line rest :
  has_newline line = false ->
  complete_lines (line ++ newline :: rest) = line :: complete_lines rest.
Proof.
  intros H. rewrite complete_lines_app, complete_lines_no_newline by done.
  unfold remainder. rewrite split_lines_no_newline by done. simpl.
  induction line as [|c line IH]; simpl.
  - unfold complete_lines. simpl. by destruct (split_lines rest).
  - rewrite has_newline_cons in H. apply orb_false_iff in H as [E H].
    unfold complete_lines in *. rewrite split_lines_cons, E.
    unfold complete_lines. by rewrite IH.
Qed.

(** Text without a newline at the end of a text adds no line. *)
Lemma complete_lines_tail t x :
  has_newline x = false -> complete_lines (t ++ x) = complete_lines t.
Proof.
  intros H. rewrite complete_lines_app, (complete_lines_no_newline (_ ++ x)).
  - by rewrite app_nil_r.
  - by rewrite has_newline_app, remainder_no_newline, H.
Qed.

(** The nested loops split off exactly the complete lines of the text
    that was appended to the buffer. *)
Lemma reassemble_spec chunks : forall buffer,
  has_newline buffer = false ->
  reassemble chunks buffer = complete_lines (buffer ++ decoded_text chunks).
Proof.
  induction chunks as [|chunk rest IH]; intros buffer H; simpl.
  - rewrite app_nil_r. by rewrite complete_lines_no_newline.
  - case_bool_decide.
    + rewrite app_nil_r. by rewrite complete_lines_no_newline.
    + rewrite IH by apply remainder_no_newline.
      by rewrite app_assoc, (complete_lines_app (buffer ++ decode_ignore chunk)).
Qed.

(** ** The scan as a consumer of lines *)

Section ScanProperties.

Variable json_loads : text -> loads_result.
Variable start_date : Z.
Variable max_rows_to_read : Z.
Variable ledger : list user.
Variable fname : string.

Local Abbreviation handle := (handle_line json_loads start_date ledger fname).
Local Abbreviation scan :=
  (scan_lines json_loads start_date max_rows_to_read ledger fname).
Local Abbreviation cand := (candidate json_loads start_date fname).
Local Abbreviation adv := (advance json_loads start_date ledger fname).
Local Abbreviation left_ := (budget_left max_rows_to_read).
Local Abbreviation eats := (consumed json_loads start_date fname).

Lemma scan_state_eq (s1 s2 : scan_state) :
  priority_data s1 = priority_data s2 ->
  other_data s1 = other_data s2 ->
  file_users s1 = file_users s2 ->
  rows_read s1 = rows_read s2 ->
  lines_processed s1 = lines_processed s2 ->
  s1 = s2.
Proof. destruct s1, s2; simpl; intros; by subst. Qed.

Lemma advance_nil st : adv st [] = st.
Proof.
  apply scan_state_eq; unfold advance, len; simpl;
    rewrite ?app_nil_r; try lia; try done. set_solver.
Qed.

Lemma advance_cons st line ls : adv (adv st [line]) ls = adv st (line :: ls).
Proof.
  apply scan_state_eq; unfold advance, len; simpl;
    destruct (cand line) as [rd|]; simpl;
    rewrite ?filter_nil, ?filter_cons, ?app_nil_r;
    repeat case_decide; simpl; rewrite <- ?app_assoc; simpl;
    rewrite ?app_nil_r; try done; try (unfold omap; lia); try set_solver.
Qed.

(** One line: either its handling raises, or the state advances by
    that line. *)
Lemma handle_line_spec line st :
  handle line st = if raising json_loads line then Raise LineError
                   else Ok (adv st [line]).
Proof.
  unfold handle_line, raising, advance, candidate, counted, len.
  destruct (blank line) eqn:Eb; simpl;
    [|destruct (json_loads line) as [| |r]; simpl;
      [| |destruct (start_date <=? default 0 (get_timestamp r)); simpl;
          [case_bool_decide|]]];
    try done; f_equal; apply scan_state_eq; simpl;
    rewrite ?filter_cons, ?filter_nil, ?Eb; simpl;
    repeat case_decide; simpl; rewrite ?app_nil_r;
    try done; try lia; try set_solver.
  all: rewrite filter_cons, filter_nil; case_decide; simpl;
    rewrite ?app_nil_r; try done; try set_solver.
Qed.

Lemma scan_lines_exhausted lines st :
  max_rows_to_read <= rows_read st -> scan lines st = Ok st.
Proof.
  intros H. destruct lines as [|l lines]; simpl; [done|].
  destruct (Z.ltb_spec (rows_read st) max_rows_to_read); [lia|done].
Qed.

Lemma budget_left_advance st line :
  rows_read st < max_rows_to_read ->
  left_ (adv st [line]) = if cand line is Some _ then pred (left_ st) else left_ st.
Proof.
  intros H. unfold budget_left, advance, len. simpl.
  destruct (cand line); simpl; lia.
Qed.

(** The scan handles the lines [consumed] and nothing else. *)
Lemma scan_lines_spec lines : forall st st',
  scan lines st = Ok st' -> st' = adv st (eats lines (left_ st)).
Proof.
  induction lines as [|l lines IH]; intros st st'; simpl.
  - intros [= <-]. by rewrite advance_nil.
  - destruct (Z.ltb_spec (rows_read st) max_rows_to_read) as [Hlt|Hge].
    + rewrite handle_line_spec. destruct (raising json_loads l); [done|]. simpl.
      intros H%IH. rewrite H, budget_left_advance, advance_cons by done.
      destruct (left_ st) as [|n] eqn:E; [unfold budget_left in E; lia|].
      by destruct (cand l).
    + intros [= <-].
      replace (left_ st) with O by (unfold budget_left; lia).
      by rewrite advance_nil.
Qed.

(** It returns as soon as no consumed line raises. *)
Lemma scan_lines_returns lines : forall st,
  Forall (λ l, raising json_loads l = false) (eats lines (left_ st)) ->
  exists st', scan lines st = Ok st'.
Proof.
  induction lines as [|l lines IH]; intros st; simpl; [by eexists|].
  destruct (Z.ltb_spec (rows_read st) max_rows_to_read) as [Hlt|Hge]; [|by eexists].
  pose proof (budget_left_advance st l Hlt) as Hb.
  destruct (left_ st) as [|n] eqn:E; [unfold budget_left in E; lia|].
  simpl. intros [Hl Hr]%Forall_cons.
  rewrite handle_line_spec, Hl. simpl. apply IH.
  rewrite Hb. by destruct (cand l).
Qed.

Lemma consumed_prefix lines : forall n, eats lines n `prefix_of` lines.
Proof.
  induction lines as [|l lines IH]; intros n; simpl; [done|].
  destruct n; [apply prefix_nil|]. apply prefix_cons, IH.
Qed.

(** The records accepted are the first [n] candidates of the lines. *)
Lemma consumed_candidates lines : forall n,
  omap cand (eats lines n) = take n (omap cand lines).
Proof.
  induction lines as [|l lines IH]; intros n; simpl; [by rewrite take_nil|].
  destruct n; simpl; [by rewrite take_0|].
  destruct (cand l); simpl; by rewrite IH.
Qed.

(** The scan stops at the end of the lines or with the budget used up. *)
Lemma consumed_stops lines : forall n,
  eats lines n = lines ∨ length (omap cand (eats lines n)) = n.
Proof.
  induction lines as [|l lines IH]; intros n; simpl; [by left|].
  destruct n; simpl; [by right|].
  destruct (cand l) eqn:E; simpl.
  - destruct (IH n) as [->|H]; [by left|right; unfold omap in *; simpl; lia].
  - destruct (IH (S n)) as [->|H]; [by left|by right].
Qed.

(** The inner loop, with enough turns, is the scan of the complete
    lines of its buffer; it leaves the buffer without a newline or
    the budget used up. *)
Lemma while_lines_spec fuel : forall st buffer,
  (length buffer <= fuel)%nat ->
  match while_lines json_loads start_date max_rows_to_read ledger fname fuel st buffer with
  | Ok (st', buffer') =>
      (has_newline buffer' = false ∨ max_rows_to_read <= rows_read st')
      ∧ forall x, scan (complete_lines (buffer' ++ x)) st'
                  = scan (complete_lines (buffer ++ x)) st
  | Raise e => forall x, scan (complete_lines (buffer ++ x)) st = Raise e
  end.
Proof.
  induction fuel as [|fuel IH]; intros st buffer Hlen.
  - destruct buffer; [|simpl in Hlen; lia]. simpl. split; [by left|done].
  - simpl. destruct (has_newline buffer) eqn:Hnl; simpl.
    2:{ split; [by left|done]. }
    destruct (Z.ltb_spec (rows_read st) max_rows_to_read) as [Hlt|Hge].
    2:{ split; [by right|done]. }
    destruct (split_first_newline buffer) as [line rest] eqn:Es.
    destruct (split_first_newline_spec _ _ _ Hnl Es) as [-> Hline].
    assert (forall x, scan (complete_lines ((line ++ newline :: rest) ++ x)) st
                      = st' ← handle line st; scan (complete_lines (rest ++ x)) st') as Hx.
    { intros x. rewrite <- app_assoc. simpl. rewrite complete_lines_cons by done.
      simpl. by destruct (Z.ltb_spec (rows_read st) max_rows_to_read); [|lia]. }
    destruct (handle line st) as [st1|e] eqn:Eh; simpl.
    + specialize (IH st1 rest). rewrite length_app in Hlen. simpl in Hlen.
      destruct (while_lines _ _ _ _ _ fuel st1 rest) as [[st' buffer']|e].
      * destruct IH as [Hinv IH]; [lia|]. split; [done|].
        intros x. by rewrite IH, Hx.
      * intros x. rewrite Hx. simpl. apply IH. lia.
    + intros x. by rewrite Hx.
Qed.

(** The two nested loops are the scan of the complete lines of the
    decoded text. *)
Lemma for_chunks_spec chunks : forall st buffer,
  has_newline buffer = false ∨ max_rows_to_read <= rows_read st ->
  fst <$> for_chunks json_loads start_date max_rows_to_read ledger fname chunks st buffer
  = scan (complete_lines (buffer ++ decoded_text chunks)) st.
Proof.
  assert (forall st buffer,
    has_newline buffer = false ∨ max_rows_to_read <= rows_read st ->
    Ok st = scan (complete_lines (buffer ++ [])) st) as Hend.
  { intros st buffer [H|H].
    - rewrite app_nil_r. by rewrite complete_lines_no_newline.
    - by rewrite scan_lines_exhausted. }
  induction chunks as [|chunk rest IH]; intros st buffer Hinv; simpl.
  - by apply Hend.
  - case_bool_decide; [by apply Hend|].
    destruct (Z.leb_spec max_rows_to_read (rows_read st)) as [Hge|Hlt].
    { simpl. by rewrite scan_lines_exhausted. }
    pose proof (while_lines_spec (length (buffer ++ decode_ignore chunk)) st
                  (buffer ++ decode_ignore chunk) (le_n _)) as Hw.
    destruct (while_lines _ _ _ _ _ _ st (buffer ++ decode_ignore chunk))
      as [[st' buffer']|e]; simpl.
    + destruct Hw as [Hinv' Hw]. rewrite IH by done.
      by rewrite Hw, app_assoc.
    + by rewrite app_assoc, Hw.
Qed.

End ScanProperties.

(** ** Reading in chunks *)

Section Reads.

Variable size : nat.
Hypothesis size_pos : (0 < size)%nat.

Lemma take_nil_inv (data : bytes) : take size data = [] -> data = [].
Proof. destruct data, size; simpl; try done; lia. Qed.

Lemma elem_of_take_inv {A} (x : A) n (l : list A) : x ∈ take n l -> x ∈ l.
Proof. intros (i & H & _)%elem_of_take. by eapply list_elem_of_lookup_2. Qed.

Lemma elem_of_drop_inv {A} (x : A) n (l : list A) : x ∈ drop n l -> x ∈ l.
Proof. apply subseteq_drop. Qed.

(** [S (length data)] calls of [read] reach the end of the data: more
    calls give the same results. *)
Lemma reads_fuel f1 : forall f2 (data : bytes),
  (length data < f1)%nat -> (length data < f2)%nat ->
  reads f1 size data = reads f2 size data.
Proof.
  induction f1 as [|f1 IH]; intros f2 data H1 H2; [lia|].
  destruct f2 as [|f2]; [lia|]. simpl.
  case_bool_decide as E; [done|]. f_equal.
  assert (data <> []) as Hd by (intros ->; by rewrite take_nil in E).
  assert (length (drop size data) < length data)%nat.
  { rewrite length_drop. destruct data; [done|]. simpl. lia. }
  apply IH; lia.
Qed.

(** The results end with the empty one and are not empty before. *)
Lemma reads_all_last f : forall data : bytes,
  (length data < f)%nat ->
  exists chunks, reads f size data = chunks ++ [[]]
                 ∧ Forall (λ c, c <> []) chunks ∧ concat chunks = data.
Proof.
  induction f as [|f IH]; intros data H; [lia|]. simpl.
  case_bool_decide as E.
  - exists []. rewrite E. split; [done|]. split; [done|].
    by rewrite (take_nil_inv _ E).
  - assert (data <> []) as Hd by (intros ->; by rewrite take_nil in E).
    destruct (IH (drop size data)) as (chunks & -> & Hne & Hc).
    { rewrite length_drop. destruct data; [done|]. simpl in *. lia. }
    exists (take size data :: chunks). split; [done|]. split; [by constructor|].
    simpl. by rewrite Hc, take_drop.
Qed.

(** The decoder emits nothing that is not in the data. *)
Lemma decoded_reads_elem f : forall (data : bytes) x,
  x ∈ decoded_text (reads f size data) -> x ∈ data.
Proof.
  induction f as [|f IH]; intros data x; simpl.
  - intros H. by apply not_elem_of_nil in H.
  - case_bool_decide as E; simpl.
    + rewrite bool_decide_true by done. intros H. by apply not_elem_of_nil in H.
    + rewrite bool_decide_false by done.
      intros [H|H]%elem_of_app.
      * apply decode_ignore_elem in H. rewrite <- (take_drop size data).
        apply elem_of_app. by left.
      * apply IH in H. rewrite <- (take_drop size data).
        apply elem_of_app. by right.
Qed.

(** ASCII data comes out of the chunked decoding as it went in. *)
Lemma decoded_reads_ascii f : forall data : bytes,
  (length data < f)%nat -> ascii_only data ->
  decoded_text (reads f size data) = data.
Proof.
  induction f as [|f IH]; intros data H Ha; [lia|]. simpl.
  case_bool_decide as E; simpl.
  - rewrite bool_decide_true by done. by rewrite (take_nil_inv _ E).
  - rewrite bool_decide_false by done.
    assert (data <> []) as Hd by (intros ->; by rewrite take_nil in E).
    rewrite decode_ignore_ascii by (by apply Forall_take).
    rewrite IH; [apply take_drop| |by apply Forall_drop].
    rewrite length_drop. destruct data; [done|]. simpl in *. lia.
Qed.

(** What follows the last newline of the data only adds text without
    a newline to the decoded text. *)
Lemma decoded_reads_tail f : forall body tail : bytes,
  (length (body ++ tail) < f)%nat ->
  (body = [] ∨ (exists b, body = b ++ [newline])) ->
  newline ∉ tail ->
  exists x, (newline ∉ x)
    ∧ decoded_text (reads f size (body ++ tail))
      = decoded_text (reads f size body) ++ x.
Proof.
  induction f as [|f IH]; intros body tail Hlen Hbody Htail; [lia|].
  destruct Hbody as [->|[b ->]].
  - exists (decoded_text (reads (S f) size tail)). split.
    + intros H. by apply decoded_reads_elem in H.
    + simpl. rewrite take_nil. simpl. done.
  - destruct (decide (length (b ++ [newline]) <= size)%nat) as [Hle|Hgt].
    + exists (decode_ignore (take (size - length (b ++ [newline])) tail)
              ++ decoded_text
                   (reads f size (drop (size - length (b ++ [newline])) tail))).
      split.
      * intros [H|H]%elem_of_app.
        -- by apply decode_ignore_elem, elem_of_take_inv in H.
        -- by apply decoded_reads_elem, elem_of_drop_inv in H.
      * simpl. rewrite take_app, drop_app.
        rewrite (take_ge (b ++ [newline])), (drop_ge (b ++ [newline])) by done.
        simpl. rewrite !bool_decide_false by (by destruct b).
        simpl. rewrite !bool_decide_false by (by destruct b).
        replace (decoded_text (reads f size [])) with (@nil byte).
        2:{ destruct f; simpl; [done|]. rewrite take_nil. simpl. done. }
        rewrite app_nil_r. unfold decode_ignore.
        by rewrite decode_from_app, pending_after_newline, <- app_assoc.
    + assert (size <= length b)%nat as Hb by (rewrite length_app in Hgt; simpl in Hgt; lia).
      destruct (IH (drop size b ++ [newline]) tail) as (x & Hx & E); [|eauto|done|].
      { rewrite !length_app, length_drop in *. simpl in *. lia. }
      exists x. split; [done|]. simpl.
      rewrite <- app_assoc, take_app, drop_app, (take_app b), (drop_app b).
      replace (size - length b)%nat with O by lia. simpl.
      rewrite !app_nil_r.
      assert (take size b <> []) as Hne.
      { intros H%take_nil_inv. subst b. simpl in *. lia. }
      rewrite !bool_decide_false by done.
      simpl. rewrite !bool_decide_false by done.
      rewrite <- app_assoc. f_equal.
      replace (drop size b ++ newline :: tail) with ((drop size b ++ [newline]) ++ tail)
        by (by rewrite <- app_assoc).
      by rewrite E.
Qed.

End Reads.

Lemma READ_SIZE_pos : (0 < READ_SIZE)%nat.
Proof. unfold READ_SIZE. lia. Qed.

Lemma category_lines_spec data :
  category_lines data = complete_lines (decoded_text (reads_all data)).
Proof. unfold category_lines. by rewrite reassemble_spec. Qed.

(** ** The scan and the kept set of a category *)

Section CategoryProperties.

Variable json_loads : text -> loads_result.
Variable start_date : Z.
Variable max_reviews : Z.
Variable max_rows_to_read : Z.

Local Abbreviation scan_cat :=
  (scan_category json_loads start_date max_rows_to_read).
Local Abbreviation sample :=
  (sample_category json_loads start_date max_reviews max_rows_to_read).

(** The scan of a category is the scan of its lines. *)
Lemma scan_category_lines ledger fname data :
  scan_cat ledger fname data
  = scan_lines json_loads start_date max_rows_to_read ledger fname
      (category_lines data) initial_scan_state.
Proof.
  unfold scan_category. rewrite category_lines_spec.
  pose proof (for_chunks_spec json_loads start_date max_rows_to_read ledger fname
                (reads_all data) initial_scan_state [] (or_introl eq_refl)) as H.
  rewrite app_nil_l in H. rewrite <- H.
  by destruct (for_chunks _ _ _ _ _ _ _ _) as [[st b]|e].
Qed.

(** The state at the end of a scan that returns. *)
Lemma scan_category_spec ledger fname data st :
  scan_cat ledger fname data = Ok st ->
  st = advance json_loads start_date ledger fname initial_scan_state
         (consumed json_loads start_date fname (category_lines data)
            (Z.to_nat max_rows_to_read)).
Proof.
  rewrite scan_category_lines. intros H%scan_lines_spec.
  rewrite H. f_equal. f_equal. unfold budget_left. simpl. f_equal. lia.
Qed.

Local Abbreviation acc := (accepted json_loads start_date max_rows_to_read).

Lemma scan_category_priority ledger fname data st :
  scan_cat ledger fname data = Ok st ->
  priority_data st = filter (known ledger) (acc fname data).
Proof.
  intros ->%scan_category_spec. unfold advance, accepted. simpl.
  by rewrite consumed_candidates.
Qed.

Lemma scan_category_other ledger fname data st :
  scan_cat ledger fname data = Ok st ->
  other_data st = filter (λ rd, ¬ known ledger rd) (acc fname data).
Proof.
  intros ->%scan_category_spec. unfold advance, accepted. simpl.
  by rewrite consumed_candidates.
Qed.

Lemma scan_category_file_users ledger fname data st :
  scan_cat ledger fname data = Ok st ->
  file_users st = list_to_set (user_id <$> priority_data st).
Proof.
  intros H. rewrite (scan_category_priority _ _ _ _ H).
  apply scan_category_spec in H as ->. unfold advance, accepted. simpl.
  rewrite consumed_candidates. set_solver.
Qed.

Lemma scan_category_rows_read ledger fname data st :
  scan_cat ledger fname data = Ok st ->
  rows_read st = len (acc fname data).
Proof.
  intros ->%scan_category_spec. unfold advance, accepted. simpl.
  by rewrite consumed_candidates.
Qed.

Lemma candidate_spec fname line rd :
  candidate json_loads start_date fname line = Some rd ->
  start_date <= timestamp rd ∧ filename rd = fname.
Proof.
  unfold candidate. destruct (blank line); [done|].
  destruct (json_loads line) as [| |r]; try done.
  destruct (Z.leb_spec start_date (default 0 (get_timestamp r))); [|done].
  by intros [= <-].
Qed.

Lemma accepted_spec fname data rd :
  rd ∈ acc fname data -> start_date <= timestamp rd ∧ filename rd = fname.
Proof.
  intros H%elem_of_take_inv. apply list_elem_of_omap in H as (line & _ & H).
  by eapply candidate_spec.
Qed.

(** The kept set: the priority records, then the first other records
    that fit under the cap. *)
Lemma fill_from_other_spec others : forall final_data users,
  fill_from_other max_reviews final_data users others
  = (final_data ++ take (Z.to_nat (max_reviews - len final_data)) others,
     users ∪ list_to_set
               (user_id <$> take (Z.to_nat (max_reviews - len final_data)) others)).
Proof.
  induction others as [|rd others IH]; intros final_data users; simpl.
  - rewrite take_nil, app_nil_r. f_equal. set_solver.
  - destruct (Z.leb_spec max_reviews (len final_data)) as [Hge|Hlt].
    + replace (Z.to_nat (max_reviews - len final_data)) with O by lia.
      simpl. rewrite app_nil_r. f_equal. set_solver.
    + rewrite IH.
      assert (len (final_data ++ [rd]) = len final_data + 1) as E
        by (unfold len; rewrite length_app; simpl; lia).
      rewrite E.
      replace (Z.to_nat (max_reviews - len final_data))
        with (S (Z.to_nat (max_reviews - (len final_data + 1)))) by lia.
      simpl. rewrite <- app_assoc. f_equal. set_solver.
Qed.

Lemma finalize_spec st :
  finalize max_reviews st
  = (priority_data st
     ++ take (Z.to_nat (max_reviews - len (priority_data st))) (other_data st),
     file_users st
     ∪ list_to_set
         (user_id <$> take (Z.to_nat (max_reviews - len (priority_data st)))
                        (other_data st))).
Proof.
  unfold finalize.
  destruct (Z.ltb_spec 0 (max_reviews - len (priority_data st))) as [Hlt|Hge].
  - apply fill_from_other_spec.
  - replace (Z.to_nat (max_reviews - len (priority_data st))) with O by lia.
    simpl. rewrite app_nil_r. f_equal. set_solver.
Qed.

Lemma sample_category_inv ledger fname data kept users :
  sample ledger fname data = Ok (kept, users) ->
  exists st, scan_cat ledger fname data = Ok st
             ∧ finalize max_reviews st = (kept, users).
Proof.
  unfold sample_category. destruct (scan_category _ _ _ _ _ _) as [st|e]; [|done].
  simpl. intros [= H]. by exists st.
Qed.

(** [file_users] at the end: the users of the kept records. *)
Lemma sample_category_users ledger fname data kept users :
  sample ledger fname data = Ok (kept, users) ->
  users = list_to_set (user_id <$> kept).
Proof.
  intros (st & Hs & Hf)%sample_category_inv.
  rewrite finalize_spec in Hf. injection Hf as <- <-.
  rewrite (scan_category_file_users _ _ _ _ Hs), fmap_app. set_solver.
Qed.

Lemma len_take_min {A} (l : list A) n :
  0 <= n -> len (take (Z.to_nat n) l) = Z.min (len l) n.
Proof. intros H. unfold len. rewrite length_take. lia. Qed.

End CategoryProperties.

(** ** Files written line by line *)

Lemma file_of_cons line lines :
  file_of (line :: lines) = line ++ newline :: file_of lines.
Proof. unfold file_of. simpl. by rewrite <- app_assoc. Qed.

Lemma file_of_ascii lines : Forall ascii_only lines -> ascii_only (file_of lines).
Proof.
  induction 1 as [|l lines Hl _ IH]; [constructor|].
  rewrite file_of_cons. apply Forall_app. split; [done|]. by constructor.
Qed.

Lemma complete_lines_file_of lines :
  Forall (λ l, has_newline l = false) lines -> complete_lines (file_of lines) = lines.
Proof.
  induction 1 as [|l lines Hl _ IH]; [done|].
  by rewrite file_of_cons, complete_lines_cons, IH.
Qed.

(** The loop sees a file of ASCII lines as it was written. *)
Lemma category_lines_file_of lines :
  Forall ascii_only lines -> Forall (λ l, has_newline l = false) lines ->
  category_lines (file_of lines) = lines.
Proof.
  intros Ha Hn. rewrite category_lines_spec. unfold reads_all.
  rewrite decoded_reads_ascii; [by apply complete_lines_file_of| | |].
  - apply READ_SIZE_pos.
  - lia.
  - by apply file_of_ascii.
Qed.

Section Repeated.

Variable json_loads : text -> loads_result.
Variable start_date : Z.
Variable fname : string.

Local Abbreviation cand := (candidate json_loads start_date fname).
Local Abbreviation eats := (consumed json_loads start_date fname).

Lemma consumed_all lines : forall n,
  (length lines <= n)%nat -> eats lines n = lines.
Proof.
  induction lines as [|l lines IH]; intros n H; simpl; [done|].
  destruct n; simpl in H; [lia|]. f_equal.
  destruct (cand l); apply IH; lia.
Qed.

Lemma consumed_cons_rejected line lines b :
  cand line = None -> eats (line :: lines) (S b) = line :: eats lines (S b).
Proof. intros H. simpl. by rewrite H. Qed.

Lemma consumed_replicate line rd n :
  cand line = Some rd -> eats (replicate n line) n = replicate n line.
Proof. intros H. induction n as [|n IH]; simpl; [done|]. by rewrite H, IH. Qed.

Lemma omap_replicate line rd n :
  cand line = Some rd -> omap cand (replicate n line) = replicate n rd.
Proof.
  intros H. induction n as [|n IH]; simpl; [done|].
  unfold omap in *. simpl. by rewrite H, IH.
Qed.

Lemma consumed_minimal lines : forall n k,
  (k < length (eats lines n))%nat ->
  (length (omap cand (take k (eats lines n))) < n)%nat.
Proof.
  induction lines as [|l lines IH]; intros n k; simpl; [lia|].
  destruct n; simpl; [lia|]. destruct k; simpl; [lia|]. intros H.
  unfold omap in *. simpl.
  destruct (cand l); simpl.
  - specialize (IH n k). lia.
  - apply IH. lia.
Qed.

End Repeated.

Lemma filter_nil_not_known (l : list review_data) : filter (known []) l = [].
Proof.
  induction l as [|x l IH]; [done|]. rewrite filter_cons_False; [done|].
  unfold known. apply not_elem_of_nil.
Qed.

Lemma filter_replicate_true {A} (P : A -> Prop) `{forall x, Decision (P x)} x n :
  P x -> filter P (replicate n x) = replicate n x.
Proof.
  intros Hx. induction n as [|n IH]; simpl; [done|].
  by rewrite filter_cons_True, IH.
Qed.

(** ** Scans of files that repeat a line *)

Section RepeatedFiles.

Variable json_loads : text -> loads_result.
Variable start_date : Z.
Variable max_rows_to_read : Z.
Variable ledger : list user.
Variable fname : string.

Local Abbreviation cand := (candidate json_loads start_date fname).
Local Abbreviation adv := (advance json_loads start_date ledger fname).
Local Abbreviation eats := (consumed json_loads start_date fname).

Lemma candidate_not_raising line rd :
  cand line = Some rd -> raising json_loads line = false.
Proof.
  unfold candidate, raising. destruct (blank line); [done|].
  by destruct (json_loads line).
Qed.

(** A scan returns when none of the lines it handles raises. *)
Lemma scan_category_returns data :
  Forall (λ l, raising json_loads l = false)
    (eats (category_lines data) (Z.to_nat max_rows_to_read)) ->
  scan_category json_loads start_date max_rows_to_read ledger fname data
  = Ok (adv initial_scan_state
          (eats (category_lines data) (Z.to_nat max_rows_to_read))).
Proof.
  intros H.
  assert (budget_left max_rows_to_read initial_scan_state
          = Z.to_nat max_rows_to_read) as E
    by (unfold budget_left; simpl; f_equal; lia).
  destruct (scan_lines_returns json_loads start_date max_rows_to_read ledger fname
              (category_lines data) initial_scan_state) as [st Hst].
  { by rewrite E. }
  rewrite scan_category_lines, Hst. f_equal.
  apply scan_lines_spec in Hst. by rewrite Hst, E.
Qed.

(** [n] times an accepted line, within the row budget. *)
Lemma scan_category_replicate line rd n :
  ascii_only line -> has_newline line = false -> cand line = Some rd ->
  (n <= Z.to_nat max_rows_to_read)%nat ->
  scan_category json_loads start_date max_rows_to_read ledger fname
    (file_of (replicate n line))
  = Ok (adv initial_scan_state (replicate n line)).
Proof.
  intros Ha Hn Hc Hle.
  assert (category_lines (file_of (replicate n line)) = replicate n line) as El
    by (apply category_lines_file_of; by apply Forall_replicate).
  assert (eats (replicate n line) (Z.to_nat max_rows_to_read) = replicate n line)
    as Ee by (apply consumed_all; by rewrite length_replicate).
  rewrite scan_category_returns; rewrite El, Ee; [done|].
  apply Forall_replicate. by eapply candidate_not_raising.
Qed.

(** A rejected line followed by as many accepted lines as the row
    budget allows: every line is handled. *)
Lemma scan_category_rejected_then_replicate line0 line rd :
  0 < max_rows_to_read ->
  ascii_only line0 -> has_newline line0 = false ->
  cand line0 = None -> raising json_loads line0 = false ->
  ascii_only line -> has_newline line = false -> cand line = Some rd ->
  scan_category json_loads start_date max_rows_to_read ledger fname
    (file_of (line0 :: replicate (Z.to_nat max_rows_to_read) line))
  = Ok (adv initial_scan_state
          (line0 :: replicate (Z.to_nat max_rows_to_read) line)).
Proof.
  intros Hpos Ha0 Hn0 Hc0 Hr0 Ha Hn Hc.
  set (n := Z.to_nat max_rows_to_read).
  assert (category_lines (file_of (line0 :: replicate n line))
          = line0 :: replicate n line) as El.
  { apply category_lines_file_of; constructor; try done; by apply Forall_replicate. }
  assert (eats (line0 :: replicate n line) n = line0 :: replicate n line) as Ee.
  { assert (n = S (pred n)) as En by lia.
    rewrite En at 2. rewrite consumed_cons_rejected by done.
    rewrite <- En. f_equal. by eapply consumed_replicate. }
  rewrite scan_category_returns; rewrite El; fold n; rewrite Ee; [done|].
  constructor; [done|]. apply Forall_replicate. by eapply candidate_not_raising.
Qed.

Lemma advance_replicate_known line rd n :
  cand line = Some rd -> known ledger rd ->
  priority_data (adv initial_scan_state (replicate n line)) = replicate n rd.
Proof.
  intros Hc Hk. unfold advance. simpl.
  by rewrite (omap_replicate _ _ _ _ rd), filter_replicate_true.
Qed.

Lemma advance_replicate_rows line rd n :
  cand line = Some rd ->
  rows_read (adv initial_scan_state (replicate n line)) = Z.of_nat n.
Proof.
  intros Hc. unfold advance, len. simpl.
  by rewrite (omap_replicate _ _ _ _ rd), length_replicate.
Qed.

Lemma advance_lines_processed lines :
  Forall (λ l, counted l = true) lines ->
  lines_processed (adv initial_scan_state lines) = len lines.
Proof.
  intros H.
  assert (filter (λ l, counted l = true) lines = lines) as E.
  { induction H as [|l ls Hl _ IH]; [done|]. by rewrite filter_cons_True, IH. }
  unfold advance. simpl. by rewrite E.
Qed.

End RepeatedFiles.

(** The example files, for any number of lines. *)

Lemma review_line_facts u :
  u = "U1"%string ∨ u = "U9"%string ->
  ascii_only (review_line u recent)
  ∧ has_newline (review_line u recent) = false
  ∧ (forall fname,
       candidate flat_json_loads start_date_utc fname (review_line u recent)
       = Some (example_record u 1700000000000 fname))
  ∧ counted (review_line u recent) = true.
Proof.
  intros [-> | ->];
    (split; [unfold ascii_only; apply (bool_decide_unpack _); vm_compute; exact I|]);
    (split; [vm_compute; reflexivity|]);
    (split; [intros fname; vm_compute; reflexivity|vm_compute; reflexivity]).
Qed.

Lemma old_line_facts :
  ascii_only (review_line "U9" old)
  ∧ has_newline (review_line "U9" old) = false
  ∧ (forall fname,
       candidate flat_json_loads start_date_utc fname (review_line "U9" old) = None)
  ∧ raising flat_json_loads (review_line "U9" old) = false
  ∧ counted (review_line "U9" old) = true.
Proof.
  split; [unfold ascii_only; apply (bool_decide_unpack _); vm_compute; exact I|].
  split; [vm_compute; reflexivity|].
  split; [intros fname; vm_compute; reflexivity|].
  split; vm_compute; reflexivity.
Qed.

Lemma reviews_of_known_user_kept max_reviews n :
  (n <= Z.to_nat MAX_ROWS_TO_READ)%nat ->
  exists kept users,
    sample_category flat_json_loads start_date_utc max_reviews MAX_ROWS_TO_READ
      [Some "U1"%string] "Cat" (reviews_of "U1" n) = Ok (kept, users)
    ∧ Z.of_nat n <= len kept.
Proof.
  intros Hn.
  destruct (review_line_facts "U1" (or_introl eq_refl)) as (Ha & Hnl & Hc & _).
  pose proof (scan_category_replicate flat_json_loads start_date_utc MAX_ROWS_TO_READ
                [Some "U1"%string] "Cat" _ _ n Ha Hnl (Hc _) Hn) as Hs.
  unfold sample_category, reviews_of. rewrite Hs.
  set (st := advance _ _ _ _ _ _).
  exists (finalize max_reviews st).1, (finalize max_reviews st).2. split.
  { unfold mbind, result_bind, mret, result_ret. by destruct (finalize max_reviews st). }
  rewrite finalize_spec. cbn [fst]. unfold st.
  rewrite (advance_replicate_known _ _ _ _ _ _ _ (Hc _)).
  - unfold len. rewrite length_app, length_replicate. lia.
  - unfold known. apply list_elem_of_here.
Qed.

Lemma reviews_of_new_user_scanned max_rows_to_read n :
  (n <= Z.to_nat max_rows_to_read)%nat ->
  exists st,
    scan_category flat_json_loads start_date_utc max_rows_to_read [] "Cat"
      (reviews_of "U9" n) = Ok st
    ∧ rows_read st = Z.of_nat n
    ∧ len (priority_data st) + len (other_data st) = Z.of_nat n.
Proof.
  intros Hn.
  destruct (review_line_facts "U9" (or_intror eq_refl)) as (Ha & Hnl & Hc & _).
  eexists. split.
  - by apply (scan_category_replicate _ _ _ _ _ _ _ _ Ha Hnl (Hc _)).
  - split; [by apply (advance_replicate_rows _ _ _ _ _ _ _ (Hc _))|].
    unfold advance, len.
    cbn [priority_data other_data initial_scan_state].
    rewrite (omap_replicate _ _ _ _ _ _ (Hc _)).
    rewrite filter_nil_not_known, filter_replicate_true, !length_app, length_replicate.
    + cbn [length]. lia.
    + unfold known. apply not_elem_of_nil.
Qed.

Lemma old_then_recent_scanned max_rows_to_read :
  0 < max_rows_to_read ->
  exists st,
    scan_category flat_json_loads start_date_utc max_rows_to_read [] "Cat"
      (old_then_recent (Z.to_nat max_rows_to_read)) = Ok st
    ∧ lines_processed st = Z.of_nat (Z.to_nat max_rows_to_read) + 1.
Proof.
  intros Hpos.
  destruct (review_line_facts "U9" (or_intror eq_refl)) as (Ha & Hnl & Hc & Hk).
  destruct old_line_facts as (Ha0 & Hnl0 & Hc0 & Hr0 & Hk0).
  eexists. split.
  - by apply (scan_category_rejected_then_replicate _ _ _ _ _ _ _ _
                Hpos Ha0 Hnl0 (Hc0 _) Hr0 Ha Hnl (Hc _)).
  - rewrite advance_lines_processed.
    + unfold len. cbn [length]. rewrite length_replicate. lia.
    + constructor; [done|]. by apply Forall_replicate.
Qed.

(** ** The run *)

Section RunProperties.

Variable json_loads : text -> loads_result.
Variable start_date : Z.
Variable max_reviews : Z.
Variable max_rows_to_read : Z.
Variable fetch : string -> option bytes.
Variable select_raises : bool.
Variable insert_fault : list row -> option nat.
Variable commit_fault : list row -> bool.
Variable frame_values : list review_data -> review_data -> row.

Local Abbreviation sample :=
  (sample_category json_loads start_date max_reviews max_rows_to_read).
Local Abbreviation save := (save_category_data insert_fault commit_fault frame_values).
Local Abbreviation process :=
  (process_category json_loads start_date max_reviews max_rows_to_read fetch
     insert_fault commit_fault frame_values).
Local Abbreviation files_loop :=
  (for_review_files json_loads start_date max_reviews max_rows_to_read fetch
     insert_fault commit_fault frame_values).
Local Abbreviation parse :=
  (parse_review_files json_loads start_date max_reviews max_rows_to_read fetch
     select_raises insert_fault commit_fault frame_values).

Local Abbreviation saved_ := (saved insert_fault commit_fault).

Local Abbreviation tuples := (data_tuples frame_values).

(** Every tuple carries the name of the category of its record. *)
Lemma data_tuples_filename df : filename <$> tuples df = filename <$> df.
Proof.
  unfold data_tuples. rewrite <- list_fmap_compose. by apply list_fmap_ext.
Qed.

Lemma data_tuples_Forall_filename (P : string -> Prop) df :
  Forall (λ rd, P (filename rd)) df -> Forall (λ r, P (filename r)) (tuples df).
Proof.
  intros H. unfold data_tuples. apply Forall_fmap.
  eapply Forall_impl; [exact H|]. done.
Qed.

Lemma data_tuples_length df : length (tuples df) = length df.
Proof. unfold data_tuples. apply length_map. Qed.

Lemma data_tuples_nil df : tuples df = [] <-> df = [].
Proof.
  split; [|by intros ->].
  intros H%(f_equal length). rewrite data_tuples_length in H.
  by destruct df.
Qed.

Lemma save_category_data_spec df w : save df w = (Ok tt, saved_ (tuples df) w).
Proof.
  unfold save_category_data, saved, try_except_db, executemany, commit, rollback,
    emit, get_db, set_db, lift, mbind, M_bind. simpl.
  destruct (insert_fault (tuples df)); simpl.
  - by rewrite <- !app_assoc.
  - destruct (commit_fault _); simpl; by rewrite <- !app_assoc.
Qed.

Lemma process_category_spec file_url fname loc w :
  process file_url fname loc w
  = match fetch file_url with
    | None => (Raise TransportError, downloaded file_url w)
    | Some data =>
        match sample (global_users loc) fname data with
        | Raise e => (Raise e, downloaded file_url w)
        | Ok (kept, users) =>
            (Ok (next_locals fname loc kept users),
             if bool_decide (kept = []) then downloaded file_url w
             else saved_ (tuples kept) (downloaded file_url w))
        end
    end.
Proof.
  unfold process_category, requests_get, emit, lift, mbind, M_bind, downloaded.
  simpl. destruct (fetch file_url) as [data|]; simpl; [|done].
  destruct (sample_category _ _ _ _ _ _ _) as [[kept users]|e]; simpl; [|done].
  case_bool_decide; simpl; [done|].
  by rewrite save_category_data_spec.
Qed.

(** The ledger after a category: the old one, then the new users of
    the kept set. *)
Lemma extend_global_users_spec (ledger : list user) (users : gset user) u :
  u ∈ extend_global_users ledger users <-> u ∈ ledger ∨ u ∈ users.
Proof.
  unfold extend_global_users.
  rewrite elem_of_app, list_elem_of_filter, elem_of_elements.
  destruct (decide (u ∈ ledger)); tauto.
Qed.

Lemma extend_global_users_prefix (ledger : list user) (users : gset user) :
  ledger `prefix_of` extend_global_users ledger users.
Proof. unfold extend_global_users. by eexists. Qed.

(** The ledger never shrinks in the loop over the files. *)
Lemma for_review_files_ledger files : forall completed loc w loc' w',
  files_loop files completed loc w = (Ok loc', w') ->
  global_users loc `prefix_of` global_users loc'.
Proof.
  induction files as [|url files IH]; intros completed loc w loc' w'; simpl.
  - by intros [= <- _].
  - case_bool_decide; [apply IH|].
    unfold mbind, M_bind. rewrite process_category_spec.
    destruct (fetch url) as [data|]; [|done].
    destruct (sample_category _ _ _ _ _ _ _) as [[kept users]|e]; [|done].
    intros Hr%IH. etrans; [|exact Hr]. simpl. apply extend_global_users_prefix.
Qed.

Lemma sample_category_filename ledger fname data kept users :
  sample ledger fname data = Ok (kept, users) ->
  Forall (λ rd, filename rd = fname) kept.
Proof.
  intros (st & Hs & Hf)%sample_category_inv.
  rewrite finalize_spec in Hf. injection Hf as <- _.
  rewrite (scan_category_priority _ _ _ _ _ _ _ Hs),
    (scan_category_other _ _ _ _ _ _ _ Hs).
  apply Forall_forall. intros rd [H|H%elem_of_take_inv]%elem_of_app;
    apply list_elem_of_filter in H as [_ H];
    by apply accepted_spec in H as [_ ?].
Qed.

(** What the loop over the files does: events of categories that are
    not completed, entries of the dictionary for such categories,
    kept sets of such categories. *)
Lemma for_review_files_events files : forall completed loc w r w',
  files_loop files completed loc w = (r, w') ->
  exists evs,
    trace w' = trace w ++ evs
    ∧ Forall (λ e, exists fname, (fname ∉ completed) ∧ event_of fname e) evs
    ∧ forall loc', r = Ok loc' ->
        (forall fname, fname ∈ completed ->
           user_product_dict loc' !! fname = user_product_dict loc !! fname)
        ∧ exists dfs, all_dfs loc' = all_dfs loc ++ dfs
            ∧ Forall (Forall (λ rd, filename rd ∉ completed)) dfs.
Proof.
  induction files as [|url files IH]; intros completed loc w r w'; simpl.
  - intros [= <- <-]. exists []. rewrite app_nil_r. split; [done|]. split; [done|].
    intros loc' [= <-]. split; [done|]. exists []. by rewrite app_nil_r.
  - case_bool_decide as Hc; [apply IH|].
    unfold mbind, M_bind. rewrite process_category_spec.
    assert (Forall (λ e, exists fname, (fname ∉ completed) ∧ event_of fname e)
              [Get url]) as Hget.
    { constructor; [|done]. by exists (filename_of url). }
    destruct (fetch url) as [data|].
    2:{ intros [= <- <-]. exists [Get url]. split; [done|]. by split. }
    destruct (sample_category _ _ _ _ _ _ _) as [[kept users]|e] eqn:Es.
    2:{ intros [= <- <-]. exists [Get url]. split; [done|]. by split. }
    pose proof (sample_category_filename _ _ _ _ _ Es) as Hf.
    intros (evs & Ht & He & Hl)%IH.
    set (w1 := if bool_decide (kept = []) then downloaded url w
               else saved_ (tuples kept) (downloaded url w)) in *.
    assert (exists evs1, trace w1 = trace w ++ evs1
              ∧ Forall (λ e, exists fname, (fname ∉ completed) ∧ event_of fname e) evs1)
      as (evs1 & Ht1 & He1).
    { unfold w1. case_bool_decide; [by exists [Get url]|].
      pose proof (data_tuples_Forall_filename (λ f, f = filename_of url) _ Hf) as Hft.
      unfold saved, downloaded. simpl.
      destruct (insert_fault (tuples kept)); [|destruct (commit_fault _)];
        simpl; rewrite <- app_assoc; simpl;
        eexists; (split; [done|]);
        repeat constructor; by exists (filename_of url). }
    exists (evs1 ++ evs). split; [by rewrite Ht, Ht1, app_assoc|].
    split; [by apply Forall_app|].
    intros loc' Hr. destruct (Hl loc' Hr) as [Hd (dfs & Ha & Hdfs)]. split.
    + intros fname Hin. rewrite Hd by done. simpl.
      apply lookup_insert_ne. by intros <-.
    + exists (kept :: dfs). simpl in Ha. rewrite Ha, <- app_assoc. split; [done|].
      constructor; [|done].
      eapply Forall_impl; [exact Hf|]. simpl. by intros rd ->.
Qed.

(** Between two categories no transaction is open. *)
Lemma for_review_files_pending files : forall completed loc w r w',
  pending (db w) = [] ->
  files_loop files completed loc w = (r, w') ->
  pending (db w') = [].
Proof.
  induction files as [|url files IH]; intros completed loc w r w' Hp; simpl.
  - by intros [= _ <-].
  - case_bool_decide; [by apply IH|].
    unfold mbind, M_bind. rewrite process_category_spec.
    destruct (fetch url) as [data|]; [|by intros [= _ <-]].
    destruct (sample_category _ _ _ _ _ _ _) as [[kept users]|e];
      [|by intros [= _ <-]].
    apply IH. case_bool_decide; [done|].
    unfold saved. destruct (insert_fault (tuples kept)); [done|].
    by destruct (commit_fault _).
Qed.

Lemma queries_spec w :
  get_existing_users select_raises w
  = (Ok (existing_users select_raises (visible (db w))),
     {| db := db w; trace := trace w ++ [SelectUsers] |})
  ∧ get_completed_categories select_raises w
    = (Ok (completed_filenames select_raises (visible (db w))),
       {| db := db w; trace := trace w ++ [SelectFilenames] |}).
Proof.
  unfold get_existing_users, get_completed_categories, existing_users,
    completed_filenames, emit, get_db, mbind, M_bind, mret, M_ret.
  simpl. by destruct select_raises.
Qed.

Lemma parse_review_files_spec review_files w :
  parse review_files w
  = let w2 := {| db := db w;
                 trace := trace w ++ [SelectUsers; SelectFilenames] |} in
    match files_loop review_files
            (completed_filenames select_raises (visible (db w)))
            {| all_dfs := []; user_product_dict := ∅;
               global_users := existing_users select_raises (visible (db w)) |}
            w2 with
    | (Ok loc, w') => (Ok (concat (all_dfs loc), user_product_dict loc, loc), w')
    | (Raise e, w') => (Raise e, w')
    end.
Proof.
  unfold parse_review_files, mbind at 1 2 3, M_bind.
  destruct (queries_spec w) as [-> _].
  destruct (queries_spec {| db := db w; trace := trace w ++ [SelectUsers] |})
    as [_ ->]. simpl. rewrite <- app_assoc. simpl.
  by destruct (for_review_files _ _ _ _ _ _ _ _ _ _) as [[loc|e] w'].
Qed.

End RunProperties.

(** ** The scenarios of the specification *)

(** Three lines -- a recent review of U1, who is in the ledger, a line
    that is not JSON, an old review of U2: only the first is kept. *)
Example scenario_malformed_and_old :
  sample_category flat_json_loads start_date_utc MAX_REVIEWS MAX_ROWS_TO_READ
    [Some "U1"%string] "Cat" scenario_file
  = Ok ([example_record "U1" 1700000000000 "Cat"], {[Some "U1"%string]}).
Proof. vm_compute. reflexivity. Qed.

(** A cap of two, an empty ledger, five recent reviews of five new
    users: the first two are kept and written, and the ledger grows by
    their two users (in the order in which the set of the file's users
    is traversed). *)
Example scenario_cap_of_two :
  let kept := [example_record "A" 1700000000000 "Cat.jsonl";
               example_record "B" 1700000000000 "Cat.jsonl"] in
  let '(r, w) :=
    parse_review_files flat_json_loads start_date_utc 2 MAX_ROWS_TO_READ
      (fetch_always five_user_file) false no_fault commits plain_values
        [example_url] (fresh_world []) in
  (λ x, (x.1.1, global_users x.2)) <$> r
  = Ok (kept, [Some "B"%string; Some "A"%string])
  ∧ w = {| db := {| committed := kept; pending := [] |};
           trace := [SelectUsers; SelectFilenames; Get example_url;
                     Executemany kept; Commit] |}.
Proof. vm_compute. split; reflexivity. Qed.

(** The batch write raises after its first row: the store is left
    empty and names no completed category. *)
Example scenario_failed_batch :
  main flat_json_loads start_date_utc 2 MAX_ROWS_TO_READ
    (fetch_always five_user_file) false (fault_after 1) commits plain_values
    [example_url] []
  = let kept := [example_record "A" 1700000000000 "Cat.jsonl";
                 example_record "B" 1700000000000 "Cat.jsonl"] in
    (Ok kept, [],
     [SelectUsers; SelectFilenames; Get example_url; Executemany kept; Rollback]).
Proof. vm_compute. reflexivity. Qed.

(** * The claims *)

(** ** C1: the size and the make-up of the kept set *)

(** C1 (as amended).  For every category that is scanned to its end,
    the kept set is all of the priority records followed by the other
    records in arrival order until the cap is reached or they are
    exhausted.  Its size is [len priority + min (len other) (cap - len
    priority)] when [len priority < cap] and [len priority] otherwise;
    so it is at most the larger of the cap and [len priority], and not
    at most the cap when the priority records alone exceed it. *)
Theorem kept_set_size json_loads start_date max_reviews max_rows_to_read
    ledger fname data kept users :
  sample_category json_loads start_date max_reviews max_rows_to_read
    ledger fname data = Ok (kept, users) ->
  exists st,
    scan_category json_loads start_date max_rows_to_read ledger fname data = Ok st
    ∧ kept = priority_data st
             ++ take (Z.to_nat (max_reviews - len (priority_data st))) (other_data st)
    ∧ (len (priority_data st) < max_reviews ->
       len kept = len (priority_data st)
                  + Z.min (len (other_data st)) (max_reviews - len (priority_data st)))
    ∧ (max_reviews <= len (priority_data st) -> len kept = len (priority_data st))
    ∧ len kept <= Z.max max_reviews (len (priority_data st)).
Proof.
  intros (st & Hs & Hf)%sample_category_inv. exists st. split; [done|].
  rewrite finalize_spec in Hf. injection Hf as <- _. split; [done|].
  unfold len. rewrite length_app, length_take. repeat split; intros; lia.
Qed.

Lemma kept_set_size_witness :
  sample_category flat_json_loads start_date_utc MAX_REVIEWS MAX_ROWS_TO_READ
    [Some "U1"%string] "Cat" scenario_file
  = Ok ([example_record "U1" 1700000000000 "Cat"], {[Some "U1"%string]})
  ∧ exists st,
      scan_category flat_json_loads start_date_utc MAX_ROWS_TO_READ
        [Some "U1"%string] "Cat" scenario_file = Ok st
      ∧ [example_record "U1" 1700000000000 "Cat"]
        = priority_data st
          ++ take (Z.to_nat (MAX_REVIEWS - len (priority_data st))) (other_data st)
      ∧ (len (priority_data st) < MAX_REVIEWS ->
         len [example_record "U1" 1700000000000 "Cat"]
         = len (priority_data st)
           + Z.min (len (other_data st)) (MAX_REVIEWS - len (priority_data st)))
      ∧ (MAX_REVIEWS <= len (priority_data st) ->
         len [example_record "U1" 1700000000000 "Cat"] = len (priority_data st))
      ∧ len [example_record "U1" 1700000000000 "Cat"]
        <= Z.max MAX_REVIEWS (len (priority_data st)).
Proof.
  split; [vm_compute; reflexivity|].
  apply (kept_set_size flat_json_loads start_date_utc MAX_REVIEWS MAX_ROWS_TO_READ
           [Some "U1"%string] "Cat"%string scenario_file _ {[Some "U1"%string]}).
  vm_compute. reflexivity.
Defined.

(** The claim as it is written fails: a category whose file holds
    50,001 recent reviews of a user of the ledger keeps all of them. *)
Lemma kept_set_exceeds_cap :
  exists kept users,
    sample_category flat_json_loads start_date_utc MAX_REVIEWS MAX_ROWS_TO_READ
      [Some "U1"%string] "Cat" (reviews_of "U1" (Z.to_nat 50001)) = Ok (kept, users)
    ∧ MAX_REVIEWS < len kept.
Proof.
  destruct (reviews_of_known_user_kept MAX_REVIEWS (Z.to_nat 50001))
    as (kept & users & H & Hlen).
  { unfold MAX_ROWS_TO_READ. lia. }
  exists kept, users. split; [exact H|]. unfold MAX_REVIEWS. lia.
Qed.

(** ** C2: when the scan ends *)

(** C2 (as amended).  For every category, the scan handles the lines
    of the file in order and ends exactly when the first of these
    occurs: [MAX_ROWS_TO_READ] (300,000) records have been accepted, or
    the lines are exhausted.  The record cap plays no part in it, and
    lines that are blank, malformed or older than the cutoff are read
    without counting towards the 300,000: at most 300,000 records are
    accepted per category, however many lines are read. *)
Theorem scan_ends_at_row_budget json_loads start_date max_rows_to_read
    ledger fname data st :
  0 <= max_rows_to_read ->
  scan_category json_loads start_date max_rows_to_read ledger fname data = Ok st ->
  exists read unread,
    category_lines data = read ++ unread
    ∧ st = advance json_loads start_date ledger fname initial_scan_state read
    ∧ (unread = [] ∨ rows_read st = max_rows_to_read)
    ∧ (forall k, (k < length read)%nat ->
         len (omap (candidate json_loads start_date fname) (take k read))
         < max_rows_to_read)
    ∧ rows_read st
      = Z.min max_rows_to_read
          (len (omap (candidate json_loads start_date fname) (category_lines data)))
    ∧ lines_processed st = len (filter (λ l, counted l = true) read).
Proof.
  intros Hmax Hs.
  pose proof (scan_category_rows_read _ _ _ _ _ _ _ Hs) as Hrows.
  apply scan_category_spec in Hs.
  set (read := consumed json_loads start_date fname (category_lines data)
                 (Z.to_nat max_rows_to_read)) in *.
  destruct (consumed_prefix json_loads start_date fname (category_lines data)
              (Z.to_nat max_rows_to_read)) as [unread Hu]. fold read in Hu.
  exists read, unread. split; [done|]. split; [done|].
  assert (rows_read st
          = len (omap (candidate json_loads start_date fname) read)) as Hr.
  { rewrite Hs. unfold advance. simpl. lia. }
  repeat split.
  - destruct (consumed_stops json_loads start_date fname (category_lines data)
                (Z.to_nat max_rows_to_read)) as [H|H]; fold read in H.
    + left. rewrite H in Hu at 1.
      apply (f_equal length) in Hu. rewrite length_app in Hu.
      destruct unread; [done|simpl in Hu; lia].
    + right. rewrite Hr. unfold len. rewrite H. lia.
  - intros k Hk.
    pose proof (consumed_minimal json_loads start_date fname (category_lines data)
                  (Z.to_nat max_rows_to_read) k Hk) as H.
    fold read in H. unfold len. lia.
  - rewrite Hrows. unfold accepted, len. rewrite length_take. lia.
  - rewrite Hs. unfold advance. simpl. lia.
Qed.

Lemma scan_ends_at_row_budget_witness :
  0 <= MAX_ROWS_TO_READ
  ∧ exists read unread,
      category_lines scenario_file = read ++ unread
      ∧ {| priority_data := [example_record "U1" 1700000000000 "Cat"];
           other_data := []; file_users := {[Some "U1"%string]};
           rows_read := 1; lines_processed := 3 |}
        = advance flat_json_loads start_date_utc [Some "U1"%string] "Cat"
            initial_scan_state read
      ∧ (unread = [] ∨ 1 = MAX_ROWS_TO_READ)
      ∧ (forall k, (k < length read)%nat ->
           len (omap (candidate flat_json_loads start_date_utc "Cat") (take k read))
           < MAX_ROWS_TO_READ)
      ∧ 1 = Z.min MAX_ROWS_TO_READ
              (len (omap (candidate flat_json_loads start_date_utc "Cat")
                      (category_lines scenario_file)))
      ∧ 3 = len (filter (λ l, counted l = true) read).
Proof.
  split; [unfold MAX_ROWS_TO_READ; lia|].
  apply (scan_ends_at_row_budget flat_json_loads start_date_utc MAX_ROWS_TO_READ
           [Some "U1"%string] "Cat"%string scenario_file
           {| priority_data := [example_record "U1" 1700000000000 "Cat"];
              other_data := []; file_users := {[Some "U1"%string]};
              rows_read := 1; lines_processed := 3 |}).
  - unfold MAX_ROWS_TO_READ. lia.
  - vm_compute. reflexivity.
Defined.

(** The claim as it is written fails twice.  A file of 50,001 recent
    reviews is scanned to its end: the scan does not stop when 50,000
    records are accepted.  And in a file whose first line is an old
    review followed by 300,000 recent ones, all 300,001 lines are read. *)
Lemma scan_passes_cap_and_line_budget :
  (exists st,
     scan_category flat_json_loads start_date_utc MAX_ROWS_TO_READ [] "Cat"
       (reviews_of "U9" (Z.to_nat 50001)) = Ok st
     ∧ MAX_REVIEWS < rows_read st
     ∧ MAX_REVIEWS < len (priority_data st) + len (other_data st))
  ∧ (exists st,
       scan_category flat_json_loads start_date_utc MAX_ROWS_TO_READ [] "Cat"
         (old_then_recent (Z.to_nat MAX_ROWS_TO_READ)) = Ok st
       ∧ MAX_ROWS_TO_READ < lines_processed st).
Proof.
  split.
  - destruct (reviews_of_new_user_scanned MAX_ROWS_TO_READ (Z.to_nat 50001))
      as (st & H & Hrows & Hlen); [unfold MAX_ROWS_TO_READ; lia|].
    exists st. split; [exact H|]. unfold MAX_REVIEWS. lia.
  - destruct (old_then_recent_scanned MAX_ROWS_TO_READ) as (st & H & Hl);
      [unfold MAX_ROWS_TO_READ; lia|].
    exists st. split; [exact H|]. unfold MAX_ROWS_TO_READ in *. lia.
Qed.

(** ** C3: the timestamp cutoff *)

(** C3.  Whatever the line, the cutoff and the cap: a record of the
    kept set of a category has a timestamp that is at least
    [start_date]; a record with a smaller timestamp is in no kept
    set. *)
Theorem kept_records_not_before_cutoff json_loads start_date max_reviews
    max_rows_to_read ledger fname data kept users rd :
  sample_category json_loads start_date max_reviews max_rows_to_read
    ledger fname data = Ok (kept, users) ->
  rd ∈ kept ->
  start_date <= timestamp rd.
Proof.
  intros (st & Hs & Hf)%sample_category_inv Hrd.
  rewrite finalize_spec in Hf. injection Hf as <- _.
  rewrite (scan_category_priority _ _ _ _ _ _ _ Hs),
    (scan_category_other _ _ _ _ _ _ _ Hs) in Hrd.
  apply elem_of_app in Hrd as [H|H%elem_of_take_inv];
    apply list_elem_of_filter in H as [_ H];
    by apply accepted_spec in H as [? _].
Qed.

Lemma kept_records_not_before_cutoff_witness :
  sample_category flat_json_loads start_date_utc MAX_REVIEWS MAX_ROWS_TO_READ
    [Some "U1"%string] "Cat" scenario_file
  = Ok ([example_record "U1" 1700000000000 "Cat"], {[Some "U1"%string]})
  ∧ example_record "U1" 1700000000000 "Cat" ∈ [example_record "U1" 1700000000000 "Cat"]
  ∧ start_date_utc <= timestamp (example_record "U1" 1700000000000 "Cat").
Proof.
  split; [vm_compute; reflexivity|]. split; [by left|].
  apply (kept_records_not_before_cutoff flat_json_loads start_date_utc MAX_REVIEWS
           MAX_ROWS_TO_READ [Some "U1"%string] "Cat"%string scenario_file
           [example_record "U1" 1700000000000 "Cat"] {[Some "U1"%string]}).
  - vm_compute. reflexivity.
  - by left.
Defined.

(** ** C4: the classification by the ledger of the start *)

(** C4.  In every category the priority records are the accepted
    records whose user is in the ledger the scan started with, and the
    other records are the accepted records whose user is not, both in
    the order of the file; what the scan itself sees of a user changes
    the classification of no record. *)
Theorem classified_by_ledger_at_start json_loads start_date max_rows_to_read
    ledger fname data st :
  scan_category json_loads start_date max_rows_to_read ledger fname data = Ok st ->
  priority_data st
  = filter (λ rd, user_id rd ∈ ledger)
      (accepted json_loads start_date max_rows_to_read fname data)
  ∧ other_data st
    = filter (λ rd, user_id rd ∉ ledger)
        (accepted json_loads start_date max_rows_to_read fname data)
  ∧ (forall rd, rd ∈ accepted json_loads start_date max_rows_to_read fname data ->
       (rd ∈ priority_data st <-> user_id rd ∈ ledger)
       ∧ (rd ∈ other_data st <-> user_id rd ∉ ledger)).
Proof.
  intros Hs.
  pose proof (scan_category_priority _ _ _ _ _ _ _ Hs) as Hp.
  pose proof (scan_category_other _ _ _ _ _ _ _ Hs) as Ho.
  split; [done|]. split; [done|].
  intros rd Hrd. rewrite Hp, Ho, !list_elem_of_filter. unfold known. tauto.
Qed.

Lemma classified_by_ledger_at_start_witness :
  let st := {| priority_data := [example_record "U1" 1700000000000 "Cat"];
               other_data := [example_record "U9" 1700000000000 "Cat";
                              example_record "U9" 1700000000000 "Cat"];
               file_users := {[Some "U1"%string]};
               rows_read := 3; lines_processed := 3 |} in
  let data := file_of [review_line "U9" recent; review_line "U1" recent;
                       review_line "U9" recent] in
  scan_category flat_json_loads start_date_utc MAX_ROWS_TO_READ
    [Some "U1"%string] "Cat" data = Ok st
  ∧ priority_data st
    = filter (λ rd, user_id rd ∈ [Some "U1"%string])
        (accepted flat_json_loads start_date_utc MAX_ROWS_TO_READ "Cat" data)
  ∧ other_data st
    = filter (λ rd, user_id rd ∉ [Some "U1"%string])
        (accepted flat_json_loads start_date_utc MAX_ROWS_TO_READ "Cat" data)
  ∧ (forall rd, rd ∈ accepted flat_json_loads start_date_utc MAX_ROWS_TO_READ "Cat" data ->
       (rd ∈ priority_data st <-> user_id rd ∈ [Some "U1"%string])
       ∧ (rd ∈ other_data st <-> user_id rd ∉ [Some "U1"%string])).
Proof.
  intros st data. split; [vm_compute; reflexivity|].
  apply (classified_by_ledger_at_start flat_json_loads start_date_utc MAX_ROWS_TO_READ
           [Some "U1"%string] "Cat"%string data st).
  vm_compute. reflexivity.
Defined.

(** ** C5: the ledger *)

(** C5.  The ledger never shrinks, and a category adds its users to
    it before the next one is processed.  When the loop reaches a
    category that is not skipped and processes it, the ledger it goes
    on with is the ledger the category started with followed by new
    entries, and its members are exactly the members it had and the
    users of the records of the category's kept set (no user of a
    record that was not kept is added).  The rest of the files is
    handled from that ledger: the records of the next category that is
    not skipped are sampled against it, and the categories that follow
    do not shrink it either. *)
Theorem ledger_grows_by_kept_users json_loads start_date max_reviews
    max_rows_to_read fetch insert_fault commit_fault frame_values
    file_url completed loc w loc' w' :
  let fname := filename_of file_url in
  let loop := for_review_files json_loads start_date max_reviews
                max_rows_to_read fetch insert_fault commit_fault frame_values in
  fname ∉ completed ->
  process_category json_loads start_date max_reviews max_rows_to_read fetch
    insert_fault commit_fault frame_values file_url fname loc w = (Ok loc', w') ->
  exists kept,
    all_dfs loc' = all_dfs loc ++ [kept]
    ∧ global_users loc `prefix_of` global_users loc'
    ∧ (forall u, u ∈ global_users loc'
                 <-> u ∈ global_users loc ∨ u ∈ user_id <$> kept)
    ∧ (forall rest,
         loop (file_url :: rest) completed loc w = loop rest completed loc' w')
    ∧ (forall url2 data2 rest loc'' w'',
         filename_of url2 ∉ completed ->
         fetch url2 = Some data2 ->
         loop (file_url :: url2 :: rest) completed loc w = (Ok loc'', w'') ->
         exists kept2 users2 dfs,
           sample_category json_loads start_date max_reviews max_rows_to_read
             (global_users loc') (filename_of url2) data2 = Ok (kept2, users2)
           ∧ all_dfs loc'' = all_dfs loc ++ [kept; kept2] ++ dfs
           ∧ global_users loc' `prefix_of` global_users loc'')
    ∧ (forall rest completed0 loc'' w'',
         loop rest completed0 loc' w' = (Ok loc'', w'') ->
         global_users loc' `prefix_of` global_users loc'').
Proof.
  intros fname loop Hc Hp.
  assert (forall rest,
            loop (file_url :: rest) completed loc w = loop rest completed loc' w')
    as Hloop.
  { intros rest. unfold loop. cbn [for_review_files]. fold fname.
    rewrite bool_decide_false by done. unfold mbind, M_bind. by rewrite Hp. }
  revert Hp. rewrite process_category_spec.
  destruct (fetch file_url) as [data|]; [|done].
  destruct (sample_category _ _ _ _ _ _ _) as [[kept users]|e] eqn:Es; [|done].
  intros [= Hl Hw]. exists kept.
  assert (all_dfs loc' = all_dfs loc ++ [kept]) as Hdfs by (by rewrite <- Hl).
  split; [exact Hdfs|].
  split; [rewrite <- Hl; apply extend_global_users_prefix|]. split.
  { intros u. rewrite <- Hl. simpl. rewrite extend_global_users_spec.
    by rewrite (sample_category_users _ _ _ _ _ _ _ _ _ Es), elem_of_list_to_set. }
  split; [exact Hloop|]. split.
  - intros url2 data2 rest loc'' w'' Hc2 Hf2. rewrite Hloop.
    unfold loop. cbn [for_review_files].
    rewrite bool_decide_false by done. unfold mbind, M_bind.
    rewrite process_category_spec, Hf2.
    destruct (sample_category _ _ _ _ (global_users loc') _ _)
      as [[kept2 users2]|e] eqn:Es2; [|done].
    intros Hrest. exists kept2, users2.
    pose proof (for_review_files_ledger _ _ _ _ _ _ _ _ _ _ _ _ _ _ Hrest) as Hpre.
    apply for_review_files_events in Hrest as (_ & _ & _ & Hall).
    destruct (Hall loc'' eq_refl) as (_ & dfs & Ha & _).
    exists dfs. split; [done|]. split.
    + rewrite Ha. simpl. rewrite Hdfs. by rewrite <- !app_assoc.
    + etrans; [|exact Hpre]. simpl. apply extend_global_users_prefix.
  - intros rest completed0 loc'' w''. apply for_review_files_ledger.
Qed.

Lemma ledger_grows_by_kept_users_witness :
  let kept := [example_record "U1" 1700000000000 "Cat.jsonl";
               example_record "U2" 1700000000000 "Cat.jsonl"] in
  let loc := locals_with [Some "U1"%string] in
  let loc' := next_locals "Cat.jsonl" loc kept {[Some "U1"%string; Some "U2"%string]} in
  let w := fresh_world [] in
  let w' := saved no_fault commits kept (downloaded example_url w) in
  let loop := for_review_files flat_json_loads start_date_utc MAX_REVIEWS
                MAX_ROWS_TO_READ (fetch_always two_user_file) no_fault commits
                plain_values in
  (filename_of example_url ∉ @nil string)
  ∧ process_category flat_json_loads start_date_utc MAX_REVIEWS MAX_ROWS_TO_READ
      (fetch_always two_user_file) no_fault commits plain_values example_url
      (filename_of example_url) loc w = (Ok loc', w')
  ∧ exists kept0,
      all_dfs loc' = all_dfs loc ++ [kept0]
      ∧ global_users loc `prefix_of` global_users loc'
      ∧ (forall u, u ∈ global_users loc'
                   <-> u ∈ global_users loc ∨ u ∈ user_id <$> kept0)
      ∧ (forall rest,
           loop (example_url :: rest) [] loc w = loop rest [] loc' w')
      ∧ (forall url2 data2 rest loc'' w'',
           filename_of url2 ∉ @nil string ->
           fetch_always two_user_file url2 = Some data2 ->
           loop (example_url :: url2 :: rest) [] loc w = (Ok loc'', w'') ->
           exists kept2 users2 dfs,
             sample_category flat_json_loads start_date_utc MAX_REVIEWS
               MAX_ROWS_TO_READ (global_users loc') (filename_of url2) data2
             = Ok (kept2, users2)
             ∧ all_dfs loc'' = all_dfs loc ++ [kept0; kept2] ++ dfs
             ∧ global_users loc' `prefix_of` global_users loc'')
      ∧ (forall rest completed0 loc'' w'',
           loop rest completed0 loc' w' = (Ok loc'', w'') ->
           global_users loc' `prefix_of` global_users loc'').
Proof.
  intros kept loc loc' w w' loop.
  assert (filename_of example_url ∉ @nil string) as Hc by apply not_elem_of_nil.
  assert (process_category flat_json_loads start_date_utc MAX_REVIEWS MAX_ROWS_TO_READ
            (fetch_always two_user_file) no_fault commits plain_values example_url
            (filename_of example_url) loc w
          = (Ok loc', w')) as H by (vm_compute; reflexivity).
  split; [exact Hc|]. split; [exact H|].
  exact (ledger_grows_by_kept_users _ _ _ _ _ _ _ _ _ _ _ _ _ _ Hc H).
Defined.

(** ** C6: completed categories are skipped *)



(** ** C7: a batch that fails *)

(** C7.  When the batch insert of a category fails, the batch is rolled
    back as a whole: the store is what it was before the category, so
    it holds no row of the category if it held none before; the
    filename is not in the completed set that the next run queries; and
    the run goes on with the next category. *)
Theorem failed_batch_is_rolled_back json_loads start_date max_reviews
    max_rows_to_read fetch insert_fault commit_fault frame_values file_url
    loc w data kept users k rest completed :
  let fname := filename_of file_url in
  fname ∉ completed ->
  pending (db w) = [] ->
  Forall (λ r, filename r <> fname) (committed (db w)) ->
  fetch file_url = Some data ->
  sample_category json_loads start_date max_reviews max_rows_to_read
    (global_users loc) fname data = Ok (kept, users) ->
  kept <> [] ->
  insert_fault (data_tuples frame_values kept) = Some k ->
  exists w',
    process_category json_loads start_date max_reviews max_rows_to_read fetch
      insert_fault commit_fault frame_values file_url fname loc w
    = (Ok (next_locals fname loc kept users), w')
    ∧ trace w' = trace w ++ [Get file_url; Executemany (data_tuples frame_values kept);
                            Rollback]
    ∧ db w' = db w
    ∧ Forall (λ r, filename r <> fname) (visible (db w'))
    ∧ (fname ∉ completed_filenames false (committed (db w')))
    ∧ for_review_files json_loads start_date max_reviews max_rows_to_read fetch
        insert_fault commit_fault frame_values (file_url :: rest) completed loc w
      = for_review_files json_loads start_date max_reviews max_rows_to_read fetch
          insert_fault commit_fault frame_values
            rest completed (next_locals fname loc kept users) w'.
Proof.
  intros fname Hc Hp Hrows Hf Hs Hk Hi.
  assert (process_category json_loads start_date max_reviews max_rows_to_read fetch
            insert_fault commit_fault frame_values file_url fname loc w
          = (Ok (next_locals fname loc kept users),
             saved insert_fault commit_fault (data_tuples frame_values kept)
               (downloaded file_url w))) as E.
  { rewrite process_category_spec, Hf, Hs. by rewrite bool_decide_false. }
  exists (saved insert_fault commit_fault (data_tuples frame_values kept)
    (downloaded file_url w)).
  assert (db (saved insert_fault commit_fault (data_tuples frame_values kept)
    (downloaded file_url w)) = db w) as Edb.
  { unfold saved. rewrite Hi. simpl. destruct (db w) as [c p]. simpl in *. by subst. }
  split; [exact E|]. split.
  { unfold saved. rewrite Hi. simpl. by rewrite <- app_assoc. }
  split; [exact Edb|]. rewrite Edb. split.
  { unfold visible. by rewrite Hp, app_nil_r. }
  split.
  { unfold completed_filenames. rewrite elem_of_remove_dups, list_elem_of_fmap.
    intros (r & Hr & Hin). rewrite Forall_forall in Hrows. by apply (Hrows r Hin). }
  simpl. fold fname. rewrite bool_decide_false by done.
  unfold mbind, M_bind. by rewrite E.
Qed.

Lemma failed_batch_is_rolled_back_witness :
  let kept := [example_record "U1" 1700000000000 "Cat.jsonl";
               example_record "U2" 1700000000000 "Cat.jsonl"] in
  let users : gset user := {[Some "U1"%string; Some "U2"%string]} in
  let loc := locals_with [Some "U1"%string] in
  let w := fresh_world [example_record "U1" 1700000000000 "Other.jsonl"] in
  let fname := filename_of example_url in
  exists w',
    process_category flat_json_loads start_date_utc MAX_REVIEWS MAX_ROWS_TO_READ
      (fetch_always two_user_file) (fault_after 1) commits plain_values
        example_url fname loc w
    = (Ok (next_locals fname loc kept users), w')
    ∧ trace w' = trace w ++ [Get example_url; Executemany kept; Rollback]
    ∧ db w' = db w
    ∧ Forall (λ r, filename r <> fname) (visible (db w'))
    ∧ (fname ∉ completed_filenames false (committed (db w')))
    ∧ for_review_files flat_json_loads start_date_utc MAX_REVIEWS MAX_ROWS_TO_READ
        (fetch_always two_user_file) (fault_after 1) commits plain_values
          [example_url; example_url]
        [] loc w
      = for_review_files flat_json_loads start_date_utc MAX_REVIEWS MAX_ROWS_TO_READ
          (fetch_always two_user_file) (fault_after 1) commits plain_values
            [example_url]
          [] (next_locals fname loc kept users) w'.
Proof.
  intros kept users loc w fname.
  apply (failed_batch_is_rolled_back flat_json_loads start_date_utc MAX_REVIEWS
           MAX_ROWS_TO_READ (fetch_always two_user_file) (fault_after 1) commits plain_values
           example_url loc w two_user_file kept users 1%nat [example_url] []).
  - apply not_elem_of_nil.
  - reflexivity.
  - repeat constructor. vm_compute. discriminate.
  - reflexivity.
  - vm_compute. reflexivity.
  - discriminate.
  - reflexivity.
Defined.

(** ** C8: the lines do not depend on the chunks, unless a chunk ends
    inside a character *)

(** Chunks that do not end inside a UTF-8 sequence are decoded as their
    concatenation is. *)
Lemma decoded_text_whole chunks :
  Forall (λ c, c <> [] ∧ pending_after [] c = []) chunks ->
  decoded_text chunks = decode_ignore (concat chunks).
Proof.
  induction 1 as [|c chunks [Hne Hp] _ IH]; [done|]. simpl.
  rewrite bool_decide_false by done.
  unfold decode_ignore at 2. by rewrite decode_from_app, Hp, IH.
Qed.

(** For such chunks the lines split off are those of the whole
    stream, wherever the boundaries fall within or between lines. *)
Lemma reassemble_whole chunks :
  Forall (λ c, c <> [] ∧ pending_after [] c = []) chunks ->
  reassemble chunks [] = complete_lines (decode_ignore (concat chunks)).
Proof. intros H. by rewrite reassemble_spec, decoded_text_whole. Qed.

(** C8 (code bug).  The same bytes give different lines when a chunk
    ends inside a character: read in chunks of 8192 bytes,
    [split_char_file] yields its line without the character that lies
    across the boundary, and the kept record carries a user name that
    is not in the file; read as one chunk, or split two bytes earlier,
    it yields the line as it is in the file. *)
Theorem split_character_is_lost :
  len <$> reads_all split_char_file = [8192; 30; 0]
  ∧ concat (reads_all split_char_file) = split_char_file
  ∧ category_lines split_char_file = [split_char_line false]
  ∧ reassemble [split_char_file] [] = [split_char_line true]
  ∧ reassemble [take (Z.to_nat 8190) split_char_file;
                drop (Z.to_nat 8190) split_char_file] []
    = [split_char_line true]
  ∧ (user_id <$>
       accepted flat_json_loads start_date_utc MAX_ROWS_TO_READ "Cat" split_char_file)
    = [Some (string_of_list_byte (replicate (Z.to_nat 8179) "a"%byte))].
Proof. vm_compute. repeat split. Qed.

(** ** C9: a category without candidates *)

(** C9 (code bug).  A category with zero candidates produces an empty
    kept set, but it is never marked completed: the save is skipped for
    an empty frame and completion is read off the rows of the table
    only, so a run over such a category leaves the store as it found
    it, and the next run, which means to skip what was already
    processed, downloads and scans the category again. *)
Theorem empty_category_is_not_marked json_loads start_date max_reviews
    max_rows_to_read fetch select_raises insert_fault commit_fault frame_values
      file_url store data st :
  let fname := filename_of file_url in
  let run := main json_loads start_date max_reviews max_rows_to_read fetch
               select_raises insert_fault commit_fault frame_values [file_url] in
  fname ∉ completed_filenames select_raises store ->
  fetch file_url = Some data ->
  scan_category json_loads start_date max_rows_to_read
    (existing_users select_raises store) fname data = Ok st ->
  rows_read st = 0 ->
  (exists users,
     sample_category json_loads start_date max_reviews max_rows_to_read
       (existing_users select_raises store) fname data = Ok ([], users))
  ∧ run store = (Ok [], store, [SelectUsers; SelectFilenames; Get file_url])
  ∧ (fname ∉ completed_filenames select_raises (run store).1.2)
  ∧ Get file_url ∈ (run (run store).1.2).2.
Proof.
  intros fname run Hc Hf Hs Hz.
  assert (exists users,
            sample_category json_loads start_date max_reviews max_rows_to_read
              (existing_users select_raises store) fname data = Ok ([], users))
    as [users Hsample].
  { pose proof (scan_category_rows_read _ _ _ _ _ _ _ Hs) as Hr.
    assert (accepted json_loads start_date max_rows_to_read fname data = []) as Ea.
    { destruct (accepted _ _ _ _ _); [done|]. unfold len in Hr. simpl in Hr. lia. }
    unfold sample_category. rewrite Hs. simpl. rewrite finalize_spec.
    rewrite (scan_category_priority _ _ _ _ _ _ _ Hs),
      (scan_category_other _ _ _ _ _ _ _ Hs), Ea.
    rewrite !filter_nil, take_nil. by eexists. }
  assert (run store = (Ok [], store, [SelectUsers; SelectFilenames; Get file_url]))
    as Erun.
  { unfold run, main. rewrite bool_decide_false by done.
    rewrite parse_review_files_spec. cbv zeta.
    unfold fresh_world, visible. cbn [db committed pending trace].
    rewrite app_nil_r. cbn [for_review_files]. fold fname.
    rewrite bool_decide_false by done.
    unfold mbind, M_bind. rewrite process_category_spec, Hf.
    cbn [global_users]. rewrite Hsample. by rewrite bool_decide_true. }
  split; [by exists users|]. split; [exact Erun|].
  rewrite Erun. cbn [fst snd]. split; [done|].
  rewrite Erun. cbn [snd]. set_solver.
Qed.

Lemma empty_category_is_not_marked_witness :
  let fname := filename_of example_url in
  let run := main flat_json_loads start_date_utc MAX_REVIEWS MAX_ROWS_TO_READ
               (fetch_always old_file) false no_fault commits plain_values
                 [example_url] in
  (exists users,
     sample_category flat_json_loads start_date_utc MAX_REVIEWS MAX_ROWS_TO_READ
       (existing_users false []) fname old_file = Ok ([], users))
  ∧ run [] = (Ok [], [], [SelectUsers; SelectFilenames; Get example_url])
  ∧ (fname ∉ completed_filenames false (run []).1.2)
  ∧ Get example_url ∈ (run (run []).1.2).2.
Proof.
  intros fname run.
  apply (empty_category_is_not_marked flat_json_loads start_date_utc MAX_REVIEWS
           MAX_ROWS_TO_READ (fetch_always old_file) false no_fault commits plain_values
             example_url []
           old_file
           {| priority_data := []; other_data := []; file_users := ∅;
              rows_read := 0; lines_processed := 1 |}).
  - apply not_elem_of_nil.
  - reflexivity.
  - vm_compute. reflexivity.
  - reflexivity.
Defined.

(** The failing input: a run over a category whose only review is
    older than the cutoff writes nothing, the store it leaves names no
    completed category, and the next run, started on that store,
    requests the file again. *)
Lemma empty_category_is_rescanned :
  main flat_json_loads start_date_utc MAX_REVIEWS MAX_ROWS_TO_READ
    (fetch_always old_file) false no_fault commits plain_values [example_url] []
  = (Ok [], [], [SelectUsers; SelectFilenames; Get example_url])
  ∧ completed_filenames false
      (main flat_json_loads start_date_utc MAX_REVIEWS MAX_ROWS_TO_READ
         (fetch_always old_file) false no_fault commits plain_values
           [example_url] []).1.2 = []
  ∧ (main flat_json_loads start_date_utc MAX_REVIEWS MAX_ROWS_TO_READ
       (fetch_always old_file) false no_fault commits plain_values [example_url]
       (main flat_json_loads start_date_utc MAX_REVIEWS MAX_ROWS_TO_READ
          (fetch_always old_file) false no_fault commits plain_values
            [example_url] []).1.2).2
    = [SelectUsers; SelectFilenames; Get example_url].
Proof. vm_compute. repeat split. Qed.

(** ** C10: the text after the last newline *)

(** C10.  When the data of a category ends with text that no newline
    closes, that text is dropped: the loop splits off the same lines,
    the scan ends in the same state (the same counters, the same
    priority and other records) and the same records are kept as for
    the data without it. *)
Theorem unterminated_last_line_dropped json_loads start_date max_reviews
    max_rows_to_read ledger fname body tail :
  (body = [] ∨ exists b, body = b ++ [newline]) ->
  newline ∉ tail ->
  category_lines (body ++ tail) = category_lines body
  ∧ scan_category json_loads start_date max_rows_to_read ledger fname (body ++ tail)
    = scan_category json_loads start_date max_rows_to_read ledger fname body
  ∧ sample_category json_loads start_date max_reviews max_rows_to_read
      ledger fname (body ++ tail)
    = sample_category json_loads start_date max_reviews max_rows_to_read
        ledger fname body.
Proof.
  intros Hbody Htail.
  assert (category_lines (body ++ tail) = category_lines body) as E.
  { rewrite !category_lines_spec. unfold reads_all.
    destruct (decoded_reads_tail READ_SIZE READ_SIZE_pos (S (length (body ++ tail)))
                body tail) as (x & Hx & ->); [lia|done|done|].
    rewrite complete_lines_tail by (by apply has_newline_false).
    f_equal. f_equal. apply reads_fuel; [apply READ_SIZE_pos| |lia].
    rewrite length_app. lia. }
  split; [done|]. unfold sample_category. rewrite !scan_category_lines, E. done.
Qed.

Lemma unterminated_last_line_dropped_witness :
  (scenario_file = [] ∨ exists b, scenario_file = b ++ [newline])
  ∧ (newline ∉ review_line "U1" recent)
  ∧ category_lines (scenario_file ++ review_line "U1" recent)
    = category_lines scenario_file
  ∧ scan_category flat_json_loads start_date_utc MAX_ROWS_TO_READ [] "Cat"
      (scenario_file ++ review_line "U1" recent)
    = scan_category flat_json_loads start_date_utc MAX_ROWS_TO_READ [] "Cat"
        scenario_file
  ∧ sample_category flat_json_loads start_date_utc MAX_REVIEWS MAX_ROWS_TO_READ [] "Cat"
      (scenario_file ++ review_line "U1" recent)
    = sample_category flat_json_loads start_date_utc MAX_REVIEWS MAX_ROWS_TO_READ [] "Cat"
        scenario_file.
Proof.
  assert (scenario_file = [] ∨ exists b, scenario_file = b ++ [newline]) as H1.
  { right. exists (removelast scenario_file). vm_compute. reflexivity. }
  assert (newline ∉ review_line "U1" recent) as H2.
  { apply has_newline_false. vm_compute. reflexivity. }
  split; [exact H1|]. split; [exact H2|].
  exact (unterminated_last_line_dropped flat_json_loads start_date_utc MAX_REVIEWS
           MAX_ROWS_TO_READ [] "Cat"%string scenario_file (review_line "U1" recent)
           H1 H2).
Defined.

(** * Further properties of the loader *)

(** ** The loops over chunks and lines *)

(** X1.  The two nested loops of the scan handle exactly the lines that
    a newline closes in the text made of the separately decoded chunks,
    in order and each once, for as long as the row budget lasts; what
    is left in the buffer at the end is not handled. *)
Theorem loops_scan_the_complete_lines json_loads start_date max_rows_to_read
    ledger fname chunks :
  fst <$> for_chunks json_loads start_date max_rows_to_read ledger fname chunks
            initial_scan_state []
  = scan_lines json_loads start_date max_rows_to_read ledger fname
      (complete_lines (decoded_text chunks)) initial_scan_state.
Proof. by rewrite for_chunks_spec by (by left). Qed.

(** X2.  The result of the scan does not depend on where the chunks
    end, as long as no chunk is empty or ends inside a UTF-8 sequence:
    two such ways of cutting the same bytes give the same state or the
    same exception. *)
Theorem chunk_ends_between_characters_do_not_matter json_loads start_date
    max_rows_to_read ledger fname chunks1 chunks2 :
  Forall (λ c, c <> [] ∧ pending_after [] c = []) chunks1 ->
  Forall (λ c, c <> [] ∧ pending_after [] c = []) chunks2 ->
  concat chunks1 = concat chunks2 ->
  fst <$> for_chunks json_loads start_date max_rows_to_read ledger fname chunks1
            initial_scan_state []
  = fst <$> for_chunks json_loads start_date max_rows_to_read ledger fname chunks2
              initial_scan_state [].
Proof.
  intros H1 H2 E. rewrite !for_chunks_spec by (by left).
  by rewrite !app_nil_l, !decoded_text_whole, E.
Qed.

Lemma chunk_ends_between_characters_do_not_matter_witness :
  let chunks1 := [take 10 scenario_file; drop 10 scenario_file] in
  let chunks2 := [take 50 scenario_file; drop 50 scenario_file] in
  Forall (λ c, c <> [] ∧ pending_after [] c = []) chunks1
  ∧ Forall (λ c, c <> [] ∧ pending_after [] c = []) chunks2
  ∧ concat chunks1 = concat chunks2
  ∧ fst <$> for_chunks flat_json_loads start_date_utc MAX_ROWS_TO_READ
              [Some "U1"%string] "Cat" chunks1 initial_scan_state []
    = fst <$> for_chunks flat_json_loads start_date_utc MAX_ROWS_TO_READ
                [Some "U1"%string] "Cat" chunks2 initial_scan_state [].
Proof.
  intros chunks1 chunks2.
  assert (Forall (λ c, c <> [] ∧ pending_after [] c = []) chunks1) as H1
    by (repeat constructor; vm_compute; congruence).
  assert (Forall (λ c, c <> [] ∧ pending_after [] c = []) chunks2) as H2
    by (repeat constructor; vm_compute; congruence).
  assert (concat chunks1 = concat chunks2) as E by (vm_compute; reflexivity).
  split; [exact H1|]. split; [exact H2|]. split; [exact E|].
  exact (chunk_ends_between_characters_do_not_matter flat_json_loads start_date_utc
           MAX_ROWS_TO_READ [Some "U1"%string] "Cat"%string chunks1 chunks2 H1 H2 E).
Defined.

Section MoreScanProperties.

Variable json_loads : text -> loads_result.
Variable start_date : Z.
Variable max_rows_to_read : Z.
Variable ledger : list user.
Variable fname : string.

Local Abbreviation cand := (candidate json_loads start_date fname).
Local Abbreviation eats := (consumed json_loads start_date fname).
Local Abbreviation scan :=
  (scan_lines json_loads start_date max_rows_to_read ledger fname).

(** A line that raises among the lines to handle makes the scan raise. *)
Lemma scan_lines_raises lines : forall st,
  Exists (λ l, raising json_loads l = true)
    (eats lines (budget_left max_rows_to_read st)) ->
  scan lines st = Raise LineError.
Proof.
  induction lines as [|l lines IH]; intros st; simpl.
  { intros H. by apply Exists_nil in H. }
  destruct (Z.ltb_spec (rows_read st) max_rows_to_read) as [Hlt|Hge].
  2:{ replace (budget_left max_rows_to_read st) with O
        by (unfold budget_left; lia).
      intros H. by apply Exists_nil in H. }
  pose proof (budget_left_advance json_loads start_date max_rows_to_read ledger
                fname st l Hlt) as Hb.
  destruct (budget_left max_rows_to_read st) as [|n] eqn:E;
    [unfold budget_left in E; lia|].
  rewrite handle_line_spec. intros [Hl|Hr]%Exists_cons.
  - by rewrite Hl.
  - destruct (raising json_loads l); [done|]. simpl. apply IH.
    rewrite Hb. by destruct (cand l).
Qed.

Lemma candidate_counted line rd : cand line = Some rd -> counted line = true.
Proof. unfold candidate, counted. by destruct (blank line). Qed.

Lemma candidates_are_counted lines :
  (length (omap cand lines) <= length (filter (λ l, counted l = true) lines))%nat.
Proof.
  induction lines as [|l lines IH]; [done|].
  rewrite filter_cons. unfold omap in *. simpl.
  destruct (cand l) as [rd|] eqn:E.
  - rewrite decide_True by (by eapply candidate_counted). simpl. lia.
  - case_decide; simpl; lia.
Qed.

End MoreScanProperties.

Lemma length_filter_split {A} (P : A -> Prop) `{forall x, Decision (P x)} (l : list A) :
  (length (filter P l) + length (filter (λ x, ¬ P x) l) = length l)%nat.
Proof.
  induction l as [|x l IH]; [done|].
  rewrite !filter_cons. destruct (decide (P x)).
  - rewrite decide_False by tauto. simpl. lia.
  - rewrite decide_True by done. simpl. lia.
Qed.

(** X3.  A line that is JSON but cannot be read as a review (it is not
    an object, or its timestamp cannot be compared with a number) is
    not skipped like a malformed line: when the scan reaches it, the
    scan of the category ends with the exception. *)
Theorem unreadable_line_ends_the_scan json_loads start_date max_rows_to_read
    ledger fname data :
  Exists (λ l, raising json_loads l = true)
    (consumed json_loads start_date fname (category_lines data)
       (Z.to_nat max_rows_to_read)) ->
  scan_category json_loads start_date max_rows_to_read ledger fname data
  = Raise LineError.
Proof.
  intros H. rewrite scan_category_lines. apply scan_lines_raises.
  replace (budget_left max_rows_to_read initial_scan_state)
    with (Z.to_nat max_rows_to_read); [done|].
  unfold budget_left. simpl. f_equal. lia.
Qed.

Lemma unreadable_line_ends_the_scan_witness :
  let data := file_of [review_line "U1" recent; unreadable_line;
                       review_line "U2" recent] in
  Exists (λ l, raising flat_json_loads l = true)
    (consumed flat_json_loads start_date_utc "Cat" (category_lines data)
       (Z.to_nat MAX_ROWS_TO_READ))
  ∧ scan_category flat_json_loads start_date_utc MAX_ROWS_TO_READ [] "Cat" data
    = Raise LineError.
Proof.
  intros data.
  assert (Exists (λ l, raising flat_json_loads l = true)
            (consumed flat_json_loads start_date_utc "Cat" (category_lines data)
               (Z.to_nat MAX_ROWS_TO_READ))) as H.
  { apply Exists_exists. exists unreadable_line. split.
    - apply (bool_decide_unpack _). vm_compute. exact I.
    - vm_compute. reflexivity. }
  split; [exact H|].
  exact (unreadable_line_ends_the_scan flat_json_loads start_date_utc
           MAX_ROWS_TO_READ [] "Cat"%string data H).
Defined.

(** X4.  At the end of a scan every accepted row is in exactly one of
    the two lists, and no more rows are accepted than lines were
    counted: [rows_read = len(priority_data) + len(other_data)] and
    [rows_read <= lines_processed]. *)
Theorem scan_counters_agree json_loads start_date max_rows_to_read
    ledger fname data st :
  scan_category json_loads start_date max_rows_to_read ledger fname data = Ok st ->
  rows_read st = len (priority_data st) + len (other_data st)
  ∧ rows_read st <= lines_processed st.
Proof.
  intros ->%scan_category_spec. unfold advance, len. simpl. split.
  - rewrite <- Nat2Z.inj_add, length_filter_split. done.
  - pose proof (candidates_are_counted json_loads start_date fname
                  (consumed json_loads start_date fname (category_lines data)
                     (Z.to_nat max_rows_to_read))). lia.
Qed.

Lemma scan_counters_agree_witness :
  let st := {| priority_data := [example_record "U1" 1700000000000 "Cat"];
               other_data := []; file_users := {[Some "U1"%string]};
               rows_read := 1; lines_processed := 3 |} in
  scan_category flat_json_loads start_date_utc MAX_ROWS_TO_READ
    [Some "U1"%string] "Cat" scenario_file = Ok st
  ∧ rows_read st = len (priority_data st) + len (other_data st)
  ∧ rows_read st <= lines_processed st.
Proof.
  intros st.
  assert (scan_category flat_json_loads start_date_utc MAX_ROWS_TO_READ
            [Some "U1"%string] "Cat" scenario_file = Ok st) as H
    by (vm_compute; reflexivity).
  split; [exact H|].
  exact (scan_counters_agree _ _ _ _ _ _ _ H).
Defined.

(** X5.  Every record of the kept set of a category carries the name
    of that category and is one of the records accepted from its
    file. *)
Theorem kept_records_belong_to_the_category json_loads start_date max_reviews
    max_rows_to_read ledger fname data kept users :
  sample_category json_loads start_date max_reviews max_rows_to_read
    ledger fname data = Ok (kept, users) ->
  Forall (λ rd, filename rd = fname
                ∧ rd ∈ accepted json_loads start_date max_rows_to_read fname data)
    kept.
Proof.
  intros (st & Hs & Hf)%sample_category_inv.
  rewrite finalize_spec in Hf. injection Hf as <- _.
  rewrite (scan_category_priority _ _ _ _ _ _ _ Hs),
    (scan_category_other _ _ _ _ _ _ _ Hs).
  apply Forall_forall. intros rd [H|H%elem_of_take_inv]%elem_of_app;
    apply list_elem_of_filter in H as [_ H];
    (split; [by eapply accepted_spec|done]).
Qed.

Lemma kept_records_belong_to_the_category_witness :
  sample_category flat_json_loads start_date_utc MAX_REVIEWS MAX_ROWS_TO_READ
    [Some "U1"%string] "Cat" scenario_file
  = Ok ([example_record "U1" 1700000000000 "Cat"], {[Some "U1"%string]})
  ∧ Forall (λ rd, filename rd = "Cat"%string
                  ∧ rd ∈ accepted flat_json_loads start_date_utc MAX_ROWS_TO_READ
                          "Cat" scenario_file)
      [example_record "U1" 1700000000000 "Cat"].
Proof.
  assert (sample_category flat_json_loads start_date_utc MAX_REVIEWS MAX_ROWS_TO_READ
            [Some "U1"%string] "Cat" scenario_file
          = Ok ([example_record "U1" 1700000000000 "Cat"], {[Some "U1"%string]}))
    as H by (vm_compute; reflexivity).
  split; [exact H|].
  exact (kept_records_belong_to_the_category _ _ _ _ _ _ _ _ _ H).
Defined.

(** ** The run, the store and the ledger *)

Section MoreRunProperties.

Variable json_loads : text -> loads_result.
Variable start_date : Z.
Variable max_reviews : Z.
Variable max_rows_to_read : Z.
Variable fetch : string -> option bytes.
Variable select_raises : bool.
Variable insert_fault : list row -> option nat.
Variable commit_fault : list row -> bool.
Variable frame_values : list review_data -> review_data -> row.

Local Abbreviation sample :=
  (sample_category json_loads start_date max_reviews max_rows_to_read).
Local Abbreviation files_loop :=
  (for_review_files json_loads start_date max_reviews max_rows_to_read fetch
     insert_fault commit_fault frame_values).

Lemma extend_global_users_NoDup (ledger : list user) (users : gset user) :
  NoDup ledger -> NoDup (extend_global_users ledger users).
Proof.
  intros H. unfold extend_global_users. apply NoDup_app. split; [done|]. split.
  - intros u Hu [Hn _]%list_elem_of_filter. done.
  - apply NoDup_filter, NoDup_elements.
Qed.

Lemma for_review_files_NoDup files : forall completed loc w loc' w',
  NoDup (global_users loc) ->
  files_loop files completed loc w = (Ok loc', w') ->
  NoDup (global_users loc').
Proof.
  induction files as [|url files IH]; intros completed loc w loc' w' Hn; simpl.
  - by intros [= <- _].
  - case_bool_decide; [by apply IH|].
    unfold mbind, M_bind. rewrite process_category_spec.
    destruct (fetch url) as [data|]; [|done].
    destruct (sample_category _ _ _ _ _ _ _) as [[kept users]|e0]; [|done].
    apply IH. simpl. by apply extend_global_users_NoDup.
Qed.

End MoreRunProperties.

(** X6.  The ledger never holds a user twice: the query that seeds it
    selects distinct users, and after each category only the users that
    are not in it yet are appended. *)
Theorem ledger_has_no_duplicates json_loads start_date max_reviews
    max_rows_to_read fetch select_raises insert_fault commit_fault frame_values
      review_files w df dict loc w' :
  parse_review_files json_loads start_date max_reviews max_rows_to_read fetch
    select_raises insert_fault commit_fault frame_values
      review_files w = (Ok (df, dict, loc), w') ->
  NoDup (global_users loc).
Proof.
  rewrite parse_review_files_spec. cbv zeta.
  destruct (for_review_files _ _ _ _ _ _ _ _ _ _) as [[loc0|e] w0] eqn:El; [|done].
  intros [= _ _ <- _]. eapply for_review_files_NoDup; [|exact El]. simpl.
  unfold existing_users. destruct select_raises; [constructor|apply NoDup_remove_dups].
Qed.

Lemma ledger_has_no_duplicates_witness :
  let kept := [example_record "U2" 1700000000000 "Cat.jsonl";
               example_record "U1" 1700000000000 "Cat.jsonl"] in
  let w := fresh_world [example_record "U2" 1600000000000 "Other.jsonl";
                        example_record "U2" 1600000000001 "Other.jsonl"] in
  let loc := next_locals "Cat.jsonl" (locals_with [Some "U2"%string]) kept
               {[Some "U1"%string; Some "U2"%string]} in
  let w' := saved no_fault commits kept
              (downloaded example_url
                 {| db := db w; trace := [SelectUsers; SelectFilenames] |}) in
  parse_review_files flat_json_loads start_date_utc MAX_REVIEWS MAX_ROWS_TO_READ
    (fetch_always two_user_file) false no_fault commits plain_values [example_url] w
  = (Ok (kept, user_product_dict loc, loc), w')
  ∧ NoDup (global_users loc).
Proof.
  intros kept w loc w'.
  assert (parse_review_files flat_json_loads start_date_utc MAX_REVIEWS
            MAX_ROWS_TO_READ (fetch_always two_user_file) false no_fault commits plain_values
            [example_url] w = (Ok (kept, user_product_dict loc, loc), w')) as H
    by (vm_compute; reflexivity).
  split; [exact H|].
  exact (ledger_has_no_duplicates _ _ _ _ _ _ _ _ _ _ _ _ _ _ _ H).
Defined.

Section StoreProperties.

Variable json_loads : text -> loads_result.
Variable start_date : Z.
Variable max_reviews : Z.
Variable max_rows_to_read : Z.
Variable fetch : string -> option bytes.
Variable select_raises : bool.
Variable insert_fault : list row -> option nat.
Variable commit_fault : list row -> bool.
Variable frame_values : list review_data -> review_data -> row.

Local Abbreviation files_loop :=
  (for_review_files json_loads start_date max_reviews max_rows_to_read fetch
     insert_fault commit_fault frame_values).
Local Abbreviation parse :=
  (parse_review_files json_loads start_date max_reviews max_rows_to_read fetch
     select_raises insert_fault commit_fault frame_values).
Local Abbreviation tuples := (data_tuples frame_values).
Local Abbreviation is_written := (written insert_fault commit_fault).

(** The rows that a category leaves in the store. *)
Lemma category_store url kept w :
  pending (db w) = [] ->
  let w1 := if bool_decide (kept = []) then downloaded url w
            else saved insert_fault commit_fault (tuples kept) (downloaded url w) in
  pending (db w1) = []
  ∧ committed (db w1)
    = committed (db w)
      ++ concat (tuples <$> filter (λ d, is_written (tuples d)) [kept]).
Proof.
  intros Hp. cbv zeta. rewrite filter_cons, filter_nil.
  case_bool_decide as Hk.
  - subst kept. simpl. split; [done|]. case_decide; simpl; by rewrite app_nil_r.
  - unfold saved, written. cbn [downloaded db pending committed].
    rewrite Hp, app_nil_l.
    case_decide as Hd.
    + destruct Hd as [Hi Hcm]. rewrite Hi, Hcm. simpl. split; [done|].
      by rewrite app_nil_r.
    + destruct (insert_fault (tuples kept)) as [k|] eqn:Ei; simpl.
      { split; [done|]. by rewrite app_nil_r. }
      destruct (commit_fault (tuples kept)) eqn:Ec; simpl.
      * split; [done|]. by rewrite app_nil_r.
      * by destruct Hd.
Qed.



(** The loop over several files, cut in two. *)
Lemma for_review_files_app files1 files2 : forall completed loc w,
  files_loop (files1 ++ files2) completed loc w
  = match files_loop files1 completed loc w with
    | (Ok loc1, w1) => files_loop files2 completed loc1 w1
    | (Raise e, w1) => (Raise e, w1)
    end.
Proof.
  induction files1 as [|url files1 IH]; intros completed loc w;
    cbn [app for_review_files]; [done|].
  case_bool_decide; [apply IH|].
  unfold mbind, M_bind.
  destruct (process_category _ _ _ _ _ _ _ _ _ _ _ _) as [[loc1|e] w1]; [|done].
  apply IH.
Qed.



(** When every batch is written and comes back from the table with the
    user identifiers of its records, the ledger and the store hold the
    same users after every category. *)
Lemma for_review_files_ledger_store files : forall completed loc w loc' w' dfs,
  pending (db w) = [] ->
  (forall u, u ∈ global_users loc <-> u ∈ user_id <$> committed (db w)) ->
  files_loop files completed loc w = (Ok loc', w') ->
  all_dfs loc' = all_dfs loc ++ dfs ->
  Forall (λ d, d <> [] -> is_written (tuples d)
                          ∧ user_id <$> tuples d = user_id <$> d) dfs ->
  forall u, u ∈ global_users loc' <-> u ∈ user_id <$> committed (db w').
Proof.
  induction files as [|url files IH]; intros completed loc w loc' w' dfs Hp Hu;
    cbn [for_review_files].
  - by intros [= <- <-].
  - case_bool_decide as Hc; [by apply IH|].
    unfold mbind, M_bind. rewrite process_category_spec.
    destruct (fetch url) as [data|]; [|done].
    destruct (sample_category _ _ _ _ _ _ _) as [[kept users]|e0] eqn:Es; [|done].
    destruct (category_store url kept w Hp) as [Hp1 Hc1].
    intros Hl Hd Hw.
    pose proof Hl as (_ & _ & _ & Hall)%for_review_files_events.
    destruct (Hall loc' eq_refl) as (_ & dfs' & Ha & _).
    cbn [next_locals all_dfs] in Ha.
    assert (dfs = kept :: dfs') as ->.
    { rewrite Hd, <- app_assoc in Ha. by apply app_inv_head in Ha. }
    apply Forall_cons in Hw as [Hk Hw].
    eapply IH; [exact Hp1| |exact Hl|exact Ha|exact Hw].
    intros u. cbn [next_locals global_users].
    rewrite extend_global_users_spec, Hu, Hc1.
    rewrite (sample_category_users _ _ _ _ _ _ _ _ _ Es), elem_of_list_to_set.
    rewrite fmap_app, elem_of_app.
    destruct (decide (kept = [])) as [->|Hne].
    + rewrite filter_cons, filter_nil. case_decide; simpl;
        rewrite elem_of_nil; tauto.
    + destruct (Hk Hne) as [Hwr Hus].
      rewrite filter_cons, filter_nil, decide_True by done. simpl.
      by rewrite app_nil_r, Hus.
Qed.

End StoreProperties.



(** X8.  What a run has written makes the next run skip the category,
    as long as the query for the completed categories works: when a
    run over one file commits a batch that is not empty, a second run
    over that file, started on the store the first one left, sends the
    two queries and nothing else -- the file is not requested and
    nothing is written. *)
Theorem persisted_category_is_skipped_next_run json_loads start_date max_reviews
    max_rows_to_read fetch insert_fault commit_fault frame_values file_url
    store data kept users :
  let fname := filename_of file_url in
  let run := main json_loads start_date max_reviews max_rows_to_read fetch
               false insert_fault commit_fault frame_values [file_url] in
  let batch := data_tuples frame_values kept in
  fname ∉ completed_filenames false store ->
  fetch file_url = Some data ->
  sample_category json_loads start_date max_reviews max_rows_to_read
    (existing_users false store) fname data = Ok (kept, users) ->
  kept <> [] ->
  written insert_fault commit_fault batch ->
  run store
  = (Ok kept, store ++ batch,
     [SelectUsers; SelectFilenames; Get file_url; Executemany batch; Commit])
  ∧ run (store ++ batch) = (Ok [], store ++ batch, [SelectUsers; SelectFilenames]).
Proof.
  intros fname run batch Hc Hf Hs Hk [Hi Hcm]. split.
  - unfold run, main. rewrite bool_decide_false by done.
    rewrite parse_review_files_spec. cbv zeta.
    unfold visible. cbn [db committed pending trace].
    rewrite app_nil_r. cbn [for_review_files]. fold fname.
    rewrite bool_decide_false by done.
    unfold mbind, M_bind. rewrite process_category_spec, Hf.
    cbn [global_users]. rewrite Hs. rewrite bool_decide_false by done.
    unfold saved. fold batch. rewrite Hi. cbn [downloaded db pending].
    rewrite app_nil_l, Hcm. simpl. by rewrite !app_nil_r.
  - unfold run, main. rewrite bool_decide_false by done.
    rewrite parse_review_files_spec. cbv zeta.
    unfold visible. cbn [db committed pending trace].
    rewrite app_nil_r. cbn [for_review_files]. fold fname.
    rewrite bool_decide_true; [done|].
    unfold completed_filenames. rewrite elem_of_remove_dups, fmap_app, elem_of_app.
    right. unfold batch. rewrite data_tuples_filename.
    destruct kept as [|rd kept']; [done|].
    pose proof (sample_category_filename _ _ _ _ _ _ _ _ _ Hs) as Hn.
    apply Forall_cons in Hn as [<- _]. simpl. left.
Qed.

Lemma persisted_category_is_skipped_next_run_witness :
  let kept := [example_record "U2" 1700000000000 "Cat.jsonl";
               example_record "U1" 1700000000000 "Cat.jsonl"] in
  let run := main flat_json_loads start_date_utc MAX_REVIEWS MAX_ROWS_TO_READ
               (fetch_always two_user_file) false no_fault commits plain_values
               [example_url] in
  let batch := data_tuples plain_values kept in
  run []
  = (Ok kept, [] ++ batch,
     [SelectUsers; SelectFilenames; Get example_url; Executemany batch; Commit])
  ∧ run ([] ++ batch) = (Ok [], [] ++ batch, [SelectUsers; SelectFilenames]).
Proof.
  intros kept run batch.
  apply (persisted_category_is_skipped_next_run flat_json_loads start_date_utc
           MAX_REVIEWS MAX_ROWS_TO_READ (fetch_always two_user_file) no_fault
           commits plain_values example_url [] two_user_file kept
           {[Some "U1"%string; Some "U2"%string]}).
  - apply not_elem_of_nil.
  - reflexivity.
  - vm_compute. reflexivity.
  - discriminate.
  - split; reflexivity.
Defined.

(** X9.  A download that fails ends the run there: when the files
    before it were handled without an exception and the file is not
    of a completed category, the run raises the transport's exception
    right after the request; the store and the trace are what the
    files before it left, with the request added, and none of the
    files after it is looked at. *)
Theorem failed_download_ends_the_run json_loads start_date max_reviews
    max_rows_to_read fetch select_raises insert_fault commit_fault frame_values
    before file_url rest w x w1 :
  parse_review_files json_loads start_date max_reviews max_rows_to_read fetch
    select_raises insert_fault commit_fault frame_values before w = (Ok x, w1) ->
  filename_of file_url ∉ completed_filenames select_raises (visible (db w)) ->
  fetch file_url = None ->
  parse_review_files json_loads start_date max_reviews max_rows_to_read fetch
    select_raises insert_fault commit_fault frame_values
    (before ++ file_url :: rest) w
  = (Raise TransportError, downloaded file_url w1).
Proof.
  rewrite !parse_review_files_spec. cbv zeta. intros H Hc Hf.
  rewrite for_review_files_app.
  destruct (for_review_files _ _ _ _ _ _ _ _ before _ _ _) as [[loc1|e] w0];
    [|done].
  injection H as _ <-. cbn [for_review_files].
  rewrite bool_decide_false by done.
  unfold mbind, M_bind. by rewrite process_category_spec, Hf.
Qed.

Lemma failed_download_ends_the_run_witness :
  let fetch := fetch_only example_url two_user_file in
  let kept := [example_record "U2" 1700000000000 "Cat.jsonl";
               example_record "U1" 1700000000000 "Cat.jsonl"] in
  let w := fresh_world [example_record "U2" 1600000000000 "Other.jsonl"] in
  let loc := next_locals "Cat.jsonl" (locals_with [Some "U2"%string]) kept
               {[Some "U1"%string; Some "U2"%string]} in
  let w1 := saved no_fault commits kept
              (downloaded example_url
                 {| db := db w; trace := [SelectUsers; SelectFilenames] |}) in
  parse_review_files flat_json_loads start_date_utc MAX_REVIEWS MAX_ROWS_TO_READ
    fetch false no_fault commits plain_values [example_url] w
  = (Ok (kept, user_product_dict loc, loc), w1)
  ∧ (filename_of second_url ∉ completed_filenames false (visible (db w)))
  ∧ fetch second_url = None
  ∧ parse_review_files flat_json_loads start_date_utc MAX_REVIEWS MAX_ROWS_TO_READ
      fetch false no_fault commits plain_values
      ([example_url] ++ second_url :: [example_url]) w
    = (Raise TransportError, downloaded second_url w1).
Proof.
  intros fetch kept w loc w1.
  assert (parse_review_files flat_json_loads start_date_utc MAX_REVIEWS
            MAX_ROWS_TO_READ fetch false no_fault commits plain_values
            [example_url] w = (Ok (kept, user_product_dict loc, loc), w1)) as H
    by (vm_compute; reflexivity).
  assert (filename_of second_url ∉ completed_filenames false (visible (db w)))
    as Hc by (vm_compute; set_solver).
  assert (fetch second_url = None) as Hf by reflexivity.
  split; [exact H|]. split; [exact Hc|]. split; [exact Hf|].
  exact (failed_download_ends_the_run _ _ _ _ _ _ _ _ _ _ _ [example_url] w _ _
           H Hc Hf).
Defined.



(** X11.  When the queries work, every batch that is not empty is
    written and the table gives the user identifiers of the batches
    back as they are in the records, the ledger at the end of the run
    holds exactly the users that have a row in the table. *)
Theorem ledger_and_store_agree json_loads start_date max_reviews max_rows_to_read
    fetch insert_fault commit_fault frame_values review_files w df dict loc w' :
  pending (db w) = [] ->
  parse_review_files json_loads start_date max_reviews max_rows_to_read fetch
    false insert_fault commit_fault frame_values review_files w
  = (Ok (df, dict, loc), w') ->
  Forall (λ d, d <> [] ->
               written insert_fault commit_fault (data_tuples frame_values d)
               ∧ user_id <$> data_tuples frame_values d = user_id <$> d)
    (all_dfs loc) ->
  forall u, u ∈ global_users loc
            <-> u ∈ existing_users false (committed (db w')).
Proof.
  intros Hp. rewrite parse_review_files_spec. cbv zeta.
  unfold visible. rewrite Hp, app_nil_r.
  destruct (for_review_files _ _ _ _ _ _ _ _ _ _ _ _) as [[loc0|e] w0] eqn:El;
    [|done].
  intros [= _ _ <- <-] Hw u.
  transitivity (u ∈ user_id <$> committed (db w0)).
  2:{ unfold existing_users. by rewrite elem_of_remove_dups. }
  eapply for_review_files_ledger_store; [| |exact El| |exact Hw]; [done| |done].
  intros u'. simpl. unfold existing_users. by rewrite elem_of_remove_dups.
Qed.

Lemma ledger_and_store_agree_witness :
  let kept := [example_record "U2" 1700000000000 "Cat.jsonl";
               example_record "U1" 1700000000000 "Cat.jsonl"] in
  let w := fresh_world [example_record "U2" 1600000000000 "Other.jsonl"] in
  let loc := next_locals "Cat.jsonl" (locals_with [Some "U2"%string]) kept
               {[Some "U1"%string; Some "U2"%string]} in
  let w' := saved no_fault commits kept
              (downloaded example_url
                 {| db := db w; trace := [SelectUsers; SelectFilenames] |}) in
  pending (db w) = []
  ∧ parse_review_files flat_json_loads start_date_utc MAX_REVIEWS MAX_ROWS_TO_READ
      (fetch_always two_user_file) false no_fault commits plain_values
      [example_url] w
    = (Ok (kept, user_product_dict loc, loc), w')
  ∧ Forall (λ d, d <> [] ->
                 written no_fault commits (data_tuples plain_values d)
                 ∧ user_id <$> data_tuples plain_values d = user_id <$> d)
      (all_dfs loc)
  ∧ forall u, u ∈ global_users loc
              <-> u ∈ existing_users false (committed (db w')).
Proof.
  intros kept w loc w'.
  assert (parse_review_files flat_json_loads start_date_utc MAX_REVIEWS
            MAX_ROWS_TO_READ (fetch_always two_user_file) false no_fault commits
            plain_values [example_url] w
          = (Ok (kept, user_product_dict loc, loc), w')) as H
    by (vm_compute; reflexivity).
  assert (Forall (λ d, d <> [] ->
                       written no_fault commits (data_tuples plain_values d)
                       ∧ user_id <$> data_tuples plain_values d = user_id <$> d)
            (all_dfs loc)) as Hw.
  { repeat constructor. }
  split; [reflexivity|]. split; [exact H|]. split; [exact Hw|].
  exact (ledger_and_store_agree _ _ _ _ _ _ _ _ _ w _ _ _ _ eq_refl H Hw).
Defined.

(** ** The catalogue and the choice of the review files *)

Lemma link_of_absolute href f : link_of href = Some f -> String.prefix "http" f = true.
Proof.
  destruct href as [h|]; simpl; [|done].
  case_bool_decide; [done|].
  destruct (String.prefix "http" h) eqn:E; intros [= <-]; [done|].
  reflexivity.
Qed.

(** X12.  Every link that [get_all_files] returns is absolute: a link
    of the page that does not start with http is put behind the base
    address, which does. *)
Theorem links_are_absolute page files :
  get_all_files page = Returns files ->
  Forall (λ f, String.prefix "http" f = true) files.
Proof.
  unfold get_all_files.
  destruct (status_code page =? 200); [|intros [= <-]; constructor].
  destruct (tables page !! 1%nat) as [table|]; [|done].
  intros [= <-]. apply Forall_forall. intros f Hf.
  apply list_elem_of_omap in Hf as (href & _ & Hf).
  by eapply link_of_absolute.
Qed.


Lemma links_are_absolute_witness :
  let files := [BASE_URL +:+ "review_categories/Cat.jsonl.gz";
                "https://host/meta_categories/meta_Cat.jsonl.gz";
                "https://host/Review_Categories/Toys.jsonl.gz"]%string in
  get_all_files example_page = Returns files
  ∧ Forall (λ f, String.prefix "http" f = true) files.
Proof.
  intros files.
  assert (get_all_files example_page = Returns files) as H by reflexivity.
  split; [exact H|]. exact (links_are_absolute example_page files H).
Defined.

Lemma requested_app a b : requested (a ++ b) = requested a ++ requested b.
Proof. apply omap_app. Qed.

Lemma list_filter_sublist {A} (f : A -> bool) (l : list A) :
  List.filter f l `sublist_of` l.
Proof.
  induction l as [|x l IH]; simpl; [done|].
  destruct (f x); by constructor.
Qed.

Section ProgramProperties.

Variable json_loads : text -> loads_result.
Variable start_date : Z.
Variable max_reviews : Z.
Variable max_rows_to_read : Z.
Variable fetch : string -> option bytes.
Variable select_raises : bool.
Variable insert_fault : list row -> option nat.
Variable commit_fault : list row -> bool.
Variable frame_values : list review_data -> review_data -> row.

Local Abbreviation files_loop :=
  (for_review_files json_loads start_date max_reviews max_rows_to_read fetch
     insert_fault commit_fault frame_values).

Lemma saved_requested kept w :
  requested (trace (saved insert_fault commit_fault kept w)) = requested (trace w).
Proof.
  unfold saved. destruct (insert_fault kept); [|destruct (commit_fault _)];
    simpl; by rewrite requested_app, app_nil_r.
Qed.

Lemma for_review_files_requests files : forall completed loc w r w',
  files_loop files completed loc w = (r, w') ->
  exists urls, requested (trace w') = requested (trace w) ++ urls
               ∧ urls `sublist_of` files.
Proof.
  induction files as [|url files IH]; intros completed loc w r w'; simpl.
  - intros [= _ <-]. exists []. by rewrite app_nil_r.
  - case_bool_decide.
    { intros (urls & -> & Hs)%IH. exists urls. split; [done|]. by constructor. }
    unfold mbind, M_bind. rewrite process_category_spec.
    assert ([url] `sublist_of` url :: files) as Hone.
    { constructor. apply sublist_nil_l. }
    destruct (fetch url) as [data|].
    2:{ intros [= _ <-]. exists [url]. unfold downloaded. simpl. by rewrite requested_app. }
    destruct (sample_category _ _ _ _ _ _ _) as [[kept users]|e].
    2:{ intros [= _ <-]. exists [url]. unfold downloaded. simpl. by rewrite requested_app. }
    intros (urls & -> & Hs)%IH. exists (url :: urls). split; [|by constructor].
    case_bool_decide; [|rewrite saved_requested];
      unfold downloaded; simpl; by rewrite requested_app, <- app_assoc.
Qed.

Lemma main_requests review_files store r store' tr :
  main json_loads start_date max_reviews max_rows_to_read fetch select_raises
    insert_fault commit_fault frame_values review_files store = (r, store', tr) ->
  requested tr `sublist_of` review_files.
Proof.
  unfold main. case_bool_decide.
  { intros [= _ _ <-]. apply sublist_nil_l. }
  rewrite parse_review_files_spec. simpl.
  destruct (for_review_files _ _ _ _ _ _ _ _ _ _) as [r1 w1] eqn:E.
  apply for_review_files_requests in E as (urls & E & Hs). simpl in E.
  destruct r1; intros [= _ _ <-]; simpl; by rewrite E.
Qed.

End ProgramProperties.

(** X13.  Whatever the run does, the files it requests are links of
    the catalogue page, in the order of the page and none more often
    than the page has it; each of them has the marker of the review
    files in its name, in any case of the letters, and is absolute. *)
Theorem only_review_files_are_requested json_loads start_date max_reviews
    max_rows_to_read fetch select_raises insert_fault commit_fault frame_values
      page connection
    r store' tr :
  main_program json_loads start_date max_reviews max_rows_to_read fetch
    select_raises insert_fault commit_fault frame_values
      page connection = Returns (r, store', tr) ->
  exists files,
    get_all_files page = Returns files
    ∧ requested tr `sublist_of` files
    ∧ Forall (λ url, is_review_file url = true
                     ∧ String.prefix "http" url = true) (requested tr).
Proof.
  unfold main_program.
  destruct (get_all_files page) as [files|] eqn:Eg; [|done].
  destruct connection as [store|]; [|done].
  intros [= H%main_requests]. exists files. split; [done|]. split.
  - etrans; [exact H|]. apply list_filter_sublist.
  - apply Forall_forall. intros url Hu.
    eapply elem_of_sublist in Hu; [|exact H].
    apply list_elem_of_In, filter_In in Hu as [Hu%list_elem_of_In ?].
    split; [done|].
    apply links_are_absolute in Eg.
    by eapply Forall_forall in Eg.
Qed.

Lemma only_review_files_are_requested_witness :
  let url1 := (BASE_URL +:+ "review_categories/Cat.jsonl.gz")%string in
  let url2 := "https://host/Review_Categories/Toys.jsonl.gz"%string in
  let tr := [SelectUsers; SelectFilenames; Get url1; Get url2] in
  main_program flat_json_loads start_date_utc MAX_REVIEWS MAX_ROWS_TO_READ
    (fetch_always old_file) false no_fault commits plain_values example_page (Some [])
  = Returns (Ok [], [], tr)
  ∧ exists files,
      get_all_files example_page = Returns files
      ∧ requested tr `sublist_of` files
      ∧ Forall (λ url, is_review_file url = true
                       ∧ String.prefix "http" url = true) (requested tr).
Proof.
  intros url1 url2 tr.
  assert (main_program flat_json_loads start_date_utc MAX_REVIEWS MAX_ROWS_TO_READ
            (fetch_always old_file) false no_fault commits plain_values
              example_page (Some [])
          = Returns (Ok [], [], tr)) as H by (vm_compute; reflexivity).
  split; [exact H|].
  exact (only_review_files_are_requested _ _ _ _ _ _ _ _ _ _ _ _ _ _ H).
Defined.

(** X14.  When no link of the catalogue is a review file -- also when
    the page did not load and there is no link at all -- the run ends
    before the first query: the store is as it was and nothing is
    requested. *)
Theorem no_review_file_no_database_access json_loads start_date max_reviews
    max_rows_to_read fetch select_raises insert_fault commit_fault frame_values
      page files store :
  get_all_files page = Returns files ->
  Forall (λ f, is_review_file f = false) files ->
  main_program json_loads start_date max_reviews max_rows_to_read fetch
    select_raises insert_fault commit_fault frame_values
      page (Some store) = Returns (Ok [], store, []).
Proof.
  intros Eg Hf. unfold main_program. rewrite Eg.
  assert (List.filter is_review_file files = []) as ->.
  { clear Eg. induction Hf as [|f l Hf _ IH]; simpl; [done|]. by rewrite Hf. }
  done.
Qed.


Lemma no_review_file_no_database_access_witness :
  let files := ["https://host/meta_categories/meta_Cat.jsonl.gz"%string] in
  let store := [example_record "U2" 1600000000000 "Other.jsonl"] in
  get_all_files meta_only_page = Returns files
  ∧ Forall (λ f, is_review_file f = false) files
  ∧ main_program flat_json_loads start_date_utc MAX_REVIEWS MAX_ROWS_TO_READ
      (fetch_always two_user_file) false no_fault commits plain_values
        meta_only_page (Some store)
    = Returns (Ok [], store, []).
Proof.
  intros files store.
  assert (get_all_files meta_only_page = Returns files) as H by reflexivity.
  assert (Forall (λ f, is_review_file f = false) files) as Hf
    by (repeat constructor).
  split; [exact H|]. split; [exact Hf|].
  exact (no_review_file_no_database_access _ _ _ _ _ _ _ _ _ _ _ _ H Hf).
Defined.

(** ** Lines and newline bytes *)









(** ** The name of a category *)

Lemma append_cons x (a b : string) : String x a +:+ b = String x (a +:+ b).
Proof. reflexivity. Qed.

Lemma append_nil_l (b : string) : EmptyString +:+ b = b.
Proof. reflexivity. Qed.

Lemma append_nil_r (a : string) : a +:+ EmptyString = a.
Proof. induction a as [|x a IH]; [done|]. by rewrite append_cons, IH. Qed.

Lemma string_app_assoc (a b c : string) : (a +:+ b) +:+ c = a +:+ (b +:+ c).
Proof. induction a as [|x a IH]; [done|]. by rewrite !append_cons, IH. Qed.

Lemma last_segment_app a : forall cur b,
  last_segment cur (a +:+ b) = last_segment (last_segment cur a) b.
Proof.
  induction a as [|c a IH]; intros cur b; [done|].
  rewrite append_cons. cbn [last_segment].
  destruct (Ascii.eqb c "/"); apply IH.
Qed.

Lemma contains_cons pat c r :
  contains pat (String c r) = false ->
  String.prefix pat (String c r) = false ∧ contains pat r = false.
Proof. cbn [contains]. by intros [? ?]%orb_false_iff. Qed.

Lemma last_segment_no_slash name : forall cur,
  contains "/" name = false -> last_segment cur name = cur +:+ name.
Proof.
  induction name as [|c r IH]; intros cur.
  - intros _. by rewrite append_nil_r.
  - intros [Hp Hr]%contains_cons. cbn [last_segment].
    destruct (Ascii.eqb c "/") eqn:E.
    + apply Ascii.eqb_eq in E as ->. cbn in Hp. by destruct r.
    + rewrite IH by done. by rewrite string_app_assoc.
Qed.

Lemma remove_gz_cons c r :
  String.prefix ".gz" (String c r) = false ->
  remove_gz (String c r) = String c (remove_gz r).
Proof.
  intros H. destruct (ascii_dec c ".") as [->|Hc].
  2:{ destruct c as [[] [] [] [] [] [] [] []]; try reflexivity. by destruct Hc. }
  destruct r as [|c1 r1]; [reflexivity|].
  destruct (ascii_dec c1 "g") as [->|Hc1].
  2:{ destruct c1 as [[] [] [] [] [] [] [] []]; try reflexivity. by destruct Hc1. }
  destruct r1 as [|c2 r2]; [reflexivity|].
  destruct (ascii_dec c2 "z") as [->|Hc2].
  2:{ destruct c2 as [[] [] [] [] [] [] [] []]; try reflexivity. by destruct Hc2. }
  cbn in H. by destruct r2.
Qed.

Lemma prefix_gz_app c r :
  String.prefix ".gz" (String c r) = false ->
  String.prefix ".gz" (String c (r +:+ ".gz")) = false.
Proof.
  cbn [String.prefix].
  destruct (ascii_dec "." c) as [<-|]; [|done].
  destruct r as [|c1 r1]; [done|]. rewrite append_cons. cbn [String.prefix].
  destruct (ascii_dec "g" c1) as [<-|]; [|done].
  destruct r1 as [|c2 r2]; [done|]. rewrite append_cons. cbn [String.prefix].
  destruct (ascii_dec "z" c2) as [<-|]; [|done].
  by destruct r2.
Qed.

Lemma remove_gz_suffix name :
  contains ".gz" name = false -> remove_gz (name +:+ ".gz") = name.
Proof.
  induction name as [|c r IH]; [done|].
  intros [Hp Hr]%contains_cons.
  rewrite append_cons, remove_gz_cons by (by apply prefix_gz_app).
  by rewrite IH.
Qed.

(** X16.  The name under which a category is recorded: for a link
    that ends in a slash, a name and .gz, it is the name, provided the
    name holds no slash and no .gz of its own. *)
Theorem filename_of_category_link dir name :
  contains "/" name = false ->
  contains ".gz" name = false ->
  filename_of (dir +:+ "/" +:+ name +:+ ".gz") = name.
Proof.
  intros Hs Hg. unfold filename_of.
  rewrite last_segment_app, append_cons. cbn [last_segment Ascii.eqb Bool.eqb].
  rewrite append_nil_l, last_segment_app, (last_segment_no_slash name) by done.
  rewrite append_nil_l, last_segment_no_slash by reflexivity.
  by apply remove_gz_suffix.
Qed.

Lemma filename_of_category_link_witness :
  contains "/" "Cat.jsonl" = false
  ∧ contains ".gz" "Cat.jsonl" = false
  ∧ filename_of ("https://host/review_categories" +:+ "/" +:+ "Cat.jsonl" +:+ ".gz")
    = "Cat.jsonl"%string.
Proof.
  split; [reflexivity|]. split; [reflexivity|].
  apply (filename_of_category_link "https://host/review_categories" "Cat.jsonl");
    reflexivity.
Defined.

(** ** The dictionary of products *)

Section DictionaryProperties.

Variable json_loads : text -> loads_result.
Variable start_date : Z.
Variable max_reviews : Z.
Variable max_rows_to_read : Z.
Variable fetch : string -> option bytes.
Variable select_raises : bool.
Variable insert_fault : list row -> option nat.
Variable commit_fault : list row -> bool.
Variable frame_values : list review_data -> review_data -> row.

Local Abbreviation files_loop :=
  (for_review_files json_loads start_date max_reviews max_rows_to_read fetch
     insert_fault commit_fault frame_values).

Lemma next_locals_dict_ok fname loc kept users :
  Forall (λ rd, filename rd = fname) kept ->
  (forall rd, rd ∈ concat (all_dfs loc) -> filename rd <> fname) ->
  dict_ok loc -> dict_ok (next_locals fname loc kept users).
Proof.
  intros Hk Hold Hd fname' products. unfold next_locals. simpl.
  rewrite concat_app. simpl. rewrite app_nil_r.
  rewrite Forall_forall in Hk.
  destruct (decide (fname = fname')) as [<-|Hne].
  - rewrite lookup_insert_eq. intros [= <-] p.
    rewrite elem_of_list_to_set, list_elem_of_In, in_map_iff. split.
    + intros (rd & <- & Hin%list_elem_of_In). exists rd.
      split; [apply elem_of_app; by right|]. split; [by apply Hk|done].
    + intros (rd & [Hin|Hin]%elem_of_app & Hf & <-).
      * by apply Hold in Hin.
      * exists rd. split; [done|]. by apply list_elem_of_In.
  - rewrite lookup_insert_ne by done. intros Hl p.
    rewrite (Hd _ _ Hl p). split.
    + intros (rd & Hin & Hf & <-). exists rd.
      split; [apply elem_of_app; by left|done].
    + intros (rd & [Hin|Hin]%elem_of_app & Hf & <-).
      * by exists rd.
      * apply Hk in Hin. congruence.
Qed.

Lemma for_review_files_dict files : forall completed loc w loc' w',
  NoDup (filename_of <$> files) ->
  (forall rd, rd ∈ concat (all_dfs loc) -> filename rd ∉ filename_of <$> files) ->
  dict_ok loc ->
  files_loop files completed loc w = (Ok loc', w') ->
  dict_ok loc'.
Proof.
  induction files as [|url files IH]; intros completed loc w loc' w' Hn Hold Hd.
  - by intros [= <- _].
  - cbn [for_review_files]. rewrite fmap_cons in Hn, Hold.
    apply NoDup_cons in Hn as [Hu Hn].
    case_bool_decide.
    { apply IH; [done| |done]. intros rd Hin Hf. apply (Hold rd Hin).
      by apply elem_of_cons; right. }
    unfold mbind, M_bind. rewrite process_category_spec.
    destruct (fetch url) as [data|]; [|done].
    destruct (sample_category _ _ _ _ _ _ _) as [[kept users]|e] eqn:Es; [|done].
    pose proof (sample_category_filename _ _ _ _ _ _ _ _ _ Es) as Hf.
    apply IH; [done| |].
    + intros rd. unfold next_locals. simpl. rewrite concat_app. simpl.
      rewrite app_nil_r. intros [Hin|Hin]%elem_of_app.
      * intros Hr. apply (Hold rd Hin). by apply elem_of_cons; right.
      * rewrite Forall_forall in Hf. by rewrite (Hf _ Hin).
    + apply next_locals_dict_ok; [done| |done].
      intros rd Hin Hr. apply (Hold rd Hin). rewrite Hr. by apply elem_of_cons; left.
Qed.

(** Every category that is processed gets its entry, whatever is kept
    for it. *)
Lemma for_review_files_dict_dom files : forall completed loc w loc' w',
  files_loop files completed loc w = (Ok loc', w') ->
  forall fname,
    is_Some (user_product_dict loc' !! fname)
    <-> is_Some (user_product_dict loc !! fname)
        ∨ (fname ∈ filename_of <$> files ∧ fname ∉ completed).
Proof.
  induction files as [|url files IH]; intros completed loc w loc' w'.
  - intros [= <- _] fname. rewrite fmap_nil, elem_of_nil. tauto.
  - cbn [for_review_files]. rewrite fmap_cons.
    case_bool_decide as Hc.
    { intros H fname. rewrite (IH _ _ _ _ _ H fname), elem_of_cons.
      split; [tauto|]. intros [?|[[->|?] ?]]; tauto. }
    unfold mbind, M_bind. rewrite process_category_spec.
    destruct (fetch url) as [data|]; [|done].
    destruct (sample_category _ _ _ _ _ _ _) as [[kept users]|e]; [|done].
    intros H fname. rewrite (IH _ _ _ _ _ H fname), elem_of_cons.
    unfold next_locals. cbn [user_product_dict].
    destruct (decide (filename_of url = fname)) as [<-|Hne].
    + rewrite lookup_insert_eq. split; [intros _; right; split; [by left|done]|].
      intros _. left. by eexists.
    + rewrite lookup_insert_ne by done. split; [tauto|].
      intros [?|[[->|?] ?]]; tauto.
Qed.

End DictionaryProperties.

(** X17.  The dictionary of products that [parse_review_files] returns
    has an entry for every category that was processed, and for no
    other name; when the review files have different names, the entry
    of a category holds exactly the [parent_asin] values of the
    returned records of that category (the empty set when nothing was
    kept for it). *)
Theorem product_dictionary_matches_kept_records json_loads start_date
    max_reviews max_rows_to_read fetch select_raises insert_fault commit_fault
    frame_values review_files w df dict loc w' :
  NoDup (filename_of <$> review_files) ->
  parse_review_files json_loads start_date max_reviews max_rows_to_read fetch
    select_raises insert_fault commit_fault frame_values review_files w
  = (Ok (df, dict, loc), w') ->
  forall fname,
    dict !! fname
    = if decide (fname ∈ filename_of <$> review_files
                 ∧ fname ∉ completed_filenames select_raises (visible (db w)))
      then Some (list_to_set
                   (parent_asin <$> filter (λ rd, filename rd = fname) df))
      else None.
Proof.
  intros Hn. rewrite parse_review_files_spec. cbv zeta.
  destruct (for_review_files _ _ _ _ _ _ _ _ _ _) as [[loc1|e] w1] eqn:E; [|done].
  intros [= <- <- <- <-] fname.
  pose proof (for_review_files_dict_dom _ _ _ _ _ _ _ _ _ _ _ _ _ _ E fname)
    as Hdom.
  eapply (for_review_files_dict _ _ _ _ _ _ _ _ _ _ _ _ _ _ Hn) in E.
  2:{ simpl. intros rd Hin. by apply not_elem_of_nil in Hin. }
  2:{ intros f products. simpl. by rewrite lookup_empty. }
  cbn [user_product_dict] in Hdom. rewrite lookup_empty in Hdom.
  case_decide as Hd.
  - assert (is_Some (user_product_dict loc1 !! fname)) as [products Hl]
      by (apply Hdom; by right).
    rewrite Hl. f_equal. apply set_eq. intros p.
    rewrite (E _ _ Hl p), elem_of_list_to_set, list_elem_of_fmap.
    split.
    + intros (rd & Hin & Hf & <-). exists rd. split; [done|].
      by apply list_elem_of_filter.
    + intros (rd & -> & [Hf Hin]%list_elem_of_filter). by exists rd.
  - apply eq_None_not_Some. intros [H|H]%Hdom; [|done].
    by apply is_Some_None in H.
Qed.

Lemma product_dictionary_matches_kept_records_witness :
  let kept := [example_record "U2" 1700000000000 "Cat.jsonl";
               example_record "U1" 1700000000000 "Cat.jsonl"] in
  let w := fresh_world [example_record "U2" 1600000000000 "Other.jsonl"] in
  let loc := next_locals "Cat.jsonl" (locals_with [Some "U2"%string]) kept
               {[Some "U1"%string; Some "U2"%string]} in
  let w' := saved no_fault commits kept
              (downloaded example_url
                 {| db := db w; trace := [SelectUsers; SelectFilenames] |}) in
  NoDup (filename_of <$> [example_url])
  ∧ parse_review_files flat_json_loads start_date_utc MAX_REVIEWS MAX_ROWS_TO_READ
      (fetch_always two_user_file) false no_fault commits plain_values
      [example_url] w
    = (Ok (kept, user_product_dict loc, loc), w')
  ∧ forall fname,
      user_product_dict loc !! fname
      = if decide (fname ∈ filename_of <$> [example_url]
                   ∧ fname ∉ completed_filenames false (visible (db w)))
        then Some (list_to_set
                     (parent_asin <$> filter (λ rd, filename rd = fname) kept))
        else None.
Proof.
  intros kept w loc w'.
  assert (NoDup (filename_of <$> [example_url])) as Hn by apply NoDup_singleton.
  assert (parse_review_files flat_json_loads start_date_utc MAX_REVIEWS
            MAX_ROWS_TO_READ (fetch_always two_user_file) false no_fault commits
            plain_values [example_url] w
          = (Ok (kept, user_product_dict loc, loc), w')) as H
    by (vm_compute; reflexivity).
  split; [exact Hn|]. split; [exact H|].
  exact (product_dictionary_matches_kept_records _ _ _ _ _ _ _ _ _ _ w _ _ _ _
           Hn H).
Defined.
